(** * YouTube dashboard backend (server.js): token manager and request handlers

    A shallow embedding of the Express handlers of [server.js] and of the
    two helpers [refreshAccessToken] and [ensureValidToken].  The server is
    a state-and-exception computation over the process state (the OAuth
    credentials, the two Mongo collections) with a record of the calls it
    issues; the OAuth provider, the YouTube client and the clock are
    functions of an environment. *)

From Stdlib Require Import ZArith NArith List Bool String Ascii Lia.
From Stdlib Require Import Permutation Sorted.
Import ListNotations.

Open Scope Z_scope.

(** ** JavaScript strings *)

Module JS.

(** A JavaScript string is a sequence of UTF-16 code units; [length]
    counts code units. *)
Definition code_unit := N.
Definition jsstring := list code_unit.

Fixpoint js (s : string) : jsstring :=
  match s with
  | EmptyString => []
  | String a s' => N_of_ascii a :: js s'
  end.

(** [String.prototype.length]. *)
Definition strlen (s : jsstring) : Z := Z.of_nat (List.length s).

(** WhiteSpace and LineTerminator code points (ECMAScript 12.2, 12.3),
    the characters [String.prototype.trim] strips. *)
Definition is_ws (c : code_unit) : bool :=
  ((9 <=? c) && (c <=? 13) || (c =? 32) || (c =? 160) || (c =? 5760)
   || (8192 <=? c) && (c <=? 8202) || (c =? 8232) || (c =? 8233)
   || (c =? 8239) || (c =? 8287) || (c =? 12288) || (c =? 65279))%N.

Fixpoint trimStart (s : jsstring) : jsstring :=
  match s with
  | c :: s' => if is_ws c then trimStart s' else s
  | [] => []
  end.

Definition trimEnd (s : jsstring) : jsstring := rev (trimStart (rev s)).

(** [String.prototype.trim]. *)
Definition trim (s : jsstring) : jsstring := trimEnd (trimStart s).

Fixpoint startsWith (s prefix : jsstring) {struct prefix} : bool :=
  match prefix, s with
  | [], _ => true
  | p :: prefix', c :: s' => (p =? c)%N && startsWith s' prefix'
  | _ :: _, [] => false
  end.

(** [String.prototype.includes]. *)
Fixpoint includes (s needle : jsstring) : bool :=
  startsWith s needle
  || match s with
     | [] => false
     | _ :: s' => includes s' needle
     end.

(** Lower case of the letters A-Z; every other code unit is kept. *)
Definition fold_case (c : code_unit) : code_unit :=
  if ((65 <=? c) && (c <=? 90))%N then (c + 32)%N else c.

(** Truthiness of a value that is a string, [undefined] or [null]:
    only a non-empty string is truthy. *)
Definition truthy_str (v : option jsstring) : bool :=
  match v with
  | Some (_ :: _) => true
  | _ => false
  end.

(** Truthiness of a value that is a number, [undefined] or [null]:
    only a non-zero number is truthy. *)
Definition truthy_num (v : option Z) : bool :=
  match v with
  | Some z => negb (z =? 0)
  | None => false
  end.

(** [a || b] on optional strings. *)
Definition or_else (a b : option jsstring) : option jsstring :=
  if truthy_str a then a else b.

End JS.
Import JS.

Arguments js s : simpl never.

(** ** Data model *)

(** [oauth2Client.credentials]. *)
Record credentials := {
  access_token : option jsstring;
  expiry_date : option Z;          (* milliseconds since the epoch *)
  refresh_token : option jsstring
}.

(** A thrown value: [error.code] (when it is a number) and [error.message]. *)
Record js_error := {
  code : option Z;
  message : jsstring
}.

(** [noteSchema]; [text] is not required. *)
Record note := {
  note_videoId : option jsstring;
  note_text : option jsstring;
  note_tags : list jsstring
}.

(** [logSchema], with the [createdAt] of [timestamps: true]. *)
Record log_entry := {
  action : jsstring;
  details : list (string * option jsstring);
  createdAt : Z
}.

(** The [snippet] of a video resource: the two fields the server edits and
    the other fields, carried along. *)
Record snippet := {
  title : option jsstring;
  description : option jsstring;
  snippet_rest : list (string * jsstring)
}.

Record video := {
  video_id : jsstring;
  video_snippet : snippet
}.

(** A resource returned by the platform, passed through to the client. *)
Definition json := jsstring.

(** The calls the server issues, in the order it issues them. *)
Inductive call :=
| CEnsureValidToken
| CRefreshAccessToken
| COAuthRefresh
| CVideosList (part id : jsstring)
| CVideosUpdate (id : jsstring) (s : snippet)
| CCommentThreadsInsert (videoId text : jsstring)
| CCommentsInsert (parentId text : jsstring)
| CCommentsDelete (id : jsstring).

(** Calls into the Token Manager. *)
Definition is_token_manager_call (c : call) : bool :=
  match c with
  | CEnsureValidToken | CRefreshAccessToken | COAuthRefresh => true
  | _ => false
  end.

(** Calls to the video platform ([youtube.*]). *)
Definition is_platform_call (c : call) : bool :=
  match c with
  | CVideosList _ _ | CVideosUpdate _ _ | CCommentThreadsInsert _ _
  | CCommentsInsert _ _ | CCommentsDelete _ => true
  | _ => false
  end.

Definition is_read_call (c : call) : bool :=
  match c with
  | CVideosList _ _ => true
  | _ => false
  end.

Definition is_mutating_call (c : call) : bool :=
  match c with
  | CVideosUpdate _ _ | CCommentThreadsInsert _ _
  | CCommentsInsert _ _ | CCommentsDelete _ => true
  | _ => false
  end.

(** The process state. *)
Record world := {
  creds : credentials;
  notes : list note;
  logs : list log_entry;
  calls : list call
}.

(** ** Computations: state and exceptions *)

Inductive result (A : Type) :=
| Val (a : A)
| Thrown (e : js_error).
Arguments Val {A} a.
Arguments Thrown {A} e.

(** What the server cannot see: the clock, the OAuth provider, the video
    platform, the health of the document store and the store's regular
    expression engine.  Of the engine two things are left open: which
    characters, beyond a letter A-Z and its lower case, it takes for the
    same letter under [$options: "i"] ([regex_caseless], asked about
    characters after A-Z was lowered), and what it makes of a pattern
    outside the fragment modelled below ([regex_beyond]: it rejects the
    pattern, or tests a text against it). *)
Record env := {
  now : Z;
  oauth_refresh : credentials -> result credentials;
  videos_list : jsstring -> jsstring -> result (option (list video));
  videos_update : jsstring -> snippet -> result json;
  commentThreads_insert : jsstring -> jsstring -> result json;
  comments_insert : jsstring -> jsstring -> result json;
  comments_delete : jsstring -> result unit;
  store_fault : option js_error;
  regex_caseless : code_unit -> code_unit -> bool;
  regex_beyond : jsstring -> result (jsstring -> bool)
}.

(** A computation runs from a state to a value or a thrown error, and a
    final state.  For a handler, [Val r] is the response it sends and
    [Thrown e] an error that escapes the handler: it has sent nothing. *)
Definition M (A : Type) : Type := world -> result A * world.

Definition ret {A} (a : A) : M A := fun w => (Val a, w).

Definition bind {A B} (m : M A) (k : A -> M B) : M B :=
  fun w =>
    match m w with
    | (Val a, w') => k a w'
    | (Thrown e, w') => (Thrown e, w')
    end.

Definition throw {A} (e : js_error) : M A := fun w => (Thrown e, w).

(** [try { m } catch (error) { h error }]. *)
Definition try_catch {A} (m : M A) (h : js_error -> M A) : M A :=
  fun w =>
    match m w with
    | (Val a, w') => (Val a, w')
    | (Thrown e, w') => h e w'
    end.

Notation "x <- m ;; k" := (bind m (fun x => k))
  (at level 61, m at next level, right associativity).
Notation "m ;; k" := (bind m (fun _ => k))
  (at level 61, right associativity).

Definition record_call (c : call) : M unit :=
  fun w => (Val tt, {| creds := creds w; notes := notes w; logs := logs w;
                       calls := calls w ++ [c] |}).

Definition lift_result {A} (r : result A) : M A := fun w => (r, w).

(** ** Token Manager *)

Definition getCredentials : M credentials := fun w => (Val (creds w), w).

(** [oauth2Client.setCredentials]. *)
Definition setCredentials (c : credentials) : M unit :=
  fun w => (Val tt, {| creds := c; notes := notes w; logs := logs w;
                       calls := calls w |}).

(** [oauth2Client.refreshAccessToken()]: the exchange with the provider. *)
Definition oauth2Client_refreshAccessToken (E : env) : M credentials :=
  record_call COAuthRefresh ;;
  c <- getCredentials ;;
  lift_result (oauth_refresh E c).

Definition refreshAccessToken (E : env) : M bool :=
  record_call CRefreshAccessToken ;;
  try_catch
    (credentials <- oauth2Client_refreshAccessToken E ;;
     setCredentials credentials ;;
     ret true)
    (fun _ => ret false).

Definition ensureValidToken (E : env) : M bool :=
  record_call CEnsureValidToken ;;
  try_catch
    (c <- getCredentials ;;
     let accessToken := access_token c in
     let expiry := expiry_date c in
     if negb (truthy_str accessToken)
        || (truthy_num expiry
            && match expiry with Some e => e <=? now E | None => false end)
     then refreshAccessToken E
     else ret true)
    (fun _ => ret false).

(** ** API Gateway *)

Inductive body :=
| BFields (fields : list (string * jsstring))
| BVideo (v : video)
| BJson (data : json)
| BNotes (ns : list note)
| BLogs (ls : list log_entry).

Record response := {
  status : Z;
  res_body : body
}.

(** [res.json(x)]: status 200 unless [res.status] was called. *)
Definition res_json (b : body) : response := {| status := 200; res_body := b |}.

Definition res_status_json (st : Z) (fields : list (string * jsstring)) : response :=
  {| status := st; res_body := BFields fields |}.

Definition auth_required : response :=
  res_status_json 401
    [("error"%string, js "Authentication required");
     ("message"%string, js "Please login again")].

Definition invalid_input (msg : string) : response :=
  res_status_json 400
    [("error"%string, js "Invalid input"); ("message"%string, js msg)].

Definition video_not_found : response :=
  res_status_json 404
    [("error"%string, js "Video not found");
     ("message"%string, js "No video found with the provided ID")].

(** [Log.create({ action, details })]. *)
Definition Log_create (E : env) (act : string)
    (det : list (string * option jsstring)) : M unit :=
  fun w =>
    match store_fault E with
    | Some e => (Thrown e, w)
    | None =>
        (Val tt,
         {| creds := creds w; notes := notes w;
            logs := logs w ++ [{| action := js act; details := det;
                                  createdAt := now E |}];
            calls := calls w |})
    end.

(** The five platform calls.  A call goes on the record and its answer
    is the environment's.  The client is built with [auth: oauth2Client];
    what the client library does with the credentials on its own while a
    call is in flight is not part of the model, so the record holds the
    calls the server's code issues and [creds] the credentials as the
    server's code set them. *)
Definition youtube_videos_list (E : env) (part : string) (id : jsstring)
  : M (option (list video)) :=
  record_call (CVideosList (js part) id) ;;
  lift_result (videos_list E (js part) id).

Definition youtube_videos_update (E : env) (id : jsstring) (s : snippet) : M json :=
  record_call (CVideosUpdate id s) ;;
  lift_result (videos_update E id s).

Definition youtube_commentThreads_insert (E : env) (videoId text : jsstring) : M json :=
  record_call (CCommentThreadsInsert videoId text) ;;
  lift_result (commentThreads_insert E videoId text).

Definition youtube_comments_insert (E : env) (parentId text : jsstring) : M json :=
  record_call (CCommentsInsert parentId text) ;;
  lift_result (comments_insert E parentId text).

Definition youtube_comments_delete (E : env) (id : jsstring) : M unit :=
  record_call (CCommentsDelete id) ;;
  lift_result (comments_delete E id).

(** [error.code === n]. *)
Definition code_is (error : js_error) (n : Z) : bool :=
  match code error with
  | Some c => c =? n
  | None => false
  end.

(** Reading an identifier that no enclosing scope declares. *)
Definition unbound_identifier {A} (name : string) : M A :=
  throw {| code := None; message := js (name ++ " is not defined") |}.

(** [!response.data.items || response.data.items.length === 0] *)
Definition first_item (items : option (list video)) : option video :=
  match items with
  | Some (v :: _) => Some v
  | _ => None
  end.

(** GET /api/video/:id *)
Definition getVideo (E : env) (videoId : jsstring) : M response :=
  try_catch
    (tokenValid <- ensureValidToken E ;;
     if negb tokenValid then ret auth_required
     else
       items <- youtube_videos_list E "snippet,statistics" videoId ;;
       match first_item items with
       | None => ret video_not_found
       | Some v =>
           Log_create E "FETCH_VIDEO" [("videoId"%string, Some videoId)] ;;
           ret (res_json (BVideo v))
       end)
    (fun error =>
       Log_create E "FETCH_VIDEO_ERROR"
         [("videoId"%string, Some videoId);
          ("error"%string, Some (message error))] ;;
       ret (res_status_json 500
              [("error"%string, js "Failed to fetch video");
               ("message"%string, message error)])).

(** PUT /api/video/:id *)
Definition putVideo (E : env) (videoId : jsstring)
    (title' description' : option jsstring) : M response :=
  try_catch
    (if negb (truthy_str title') && negb (truthy_str description')
     then ret (invalid_input "Title or description is required")
     else
       tokenValid <- ensureValidToken E ;;
       if negb tokenValid then ret auth_required
       else
         currentVideo <- youtube_videos_list E "snippet" videoId ;;
         match first_item currentVideo with
         | None => ret video_not_found
         | Some v =>
             let currentSnippet := video_snippet v in
             let updatedSnippet :=
               {| title := or_else title' (title currentSnippet);
                  description := or_else description' (description currentSnippet);
                  snippet_rest := snippet_rest currentSnippet |} in
             data <- youtube_videos_update E videoId updatedSnippet ;;
             Log_create E "UPDATE_VIDEO"
               [("videoId"%string, Some videoId);
                ("title"%string, title');
                ("description"%string, description')] ;;
             ret (res_json (BJson data))
         end)
    (fun error =>
       Log_create E "UPDATE_VIDEO_ERROR"
         [("videoId"%string, Some videoId);
          ("error"%string, Some (message error))] ;;
       ret (res_status_json 500
              [("error"%string, js "Failed to update video");
               ("message"%string, message error)])).

(** [!text || text.trim().length === 0] *)
Definition text_required (text : option jsstring) : bool :=
  negb (truthy_str text)
  || match text with
     | Some s => strlen (trim s) =? 0
     | None => true
     end.

(** [text.length > 10000] *)
Definition text_too_long (text : option jsstring) : bool :=
  match text with
  | Some s => 10000 <? strlen s
  | None => false
  end.

(** [text.trim()] once [text] is known to be a string. *)
Definition text_trim (text : option jsstring) : jsstring :=
  match text with
  | Some s => trim s
  | None => []
  end.

(** The status and message the catch block of the comment handler computes. *)
Definition classify_addComment (error : js_error) : Z * jsstring :=
  if code_is error 400 then
    if includes (message error) (js "commentsDisabled")
    then (400, js "Comments are disabled for this video")
    else if includes (message error) (js "videoNotFound")
    then (404, js "Video not found")
    else if includes (message error) (js "forbidden")
    then (403, js "You don't have permission to comment on this video")
    else (400, message error)
  else if code_is error 401
  then (401, js "Authentication required. Please login again.")
  else if code_is error 403
  then (403, js "Permission denied. Check your YouTube API quota or permissions.")
  else (500, js "Failed to add comment").

(** POST /api/video/:id/comment.  [text] is declared by [const] inside the
    [try] block, so the catch block reads an identifier that is not in
    scope when it builds the log entry. *)
Definition addComment (E : env) (videoId : jsstring) (text : option jsstring)
  : M response :=
  try_catch
    (if text_required text
     then ret (invalid_input "Comment text is required")
     else if text_too_long text
     then ret (invalid_input "Comment text is too long (max 10000 characters)")
     else
       tokenValid <- ensureValidToken E ;;
       if negb tokenValid then ret auth_required
       else
         videoCheck <- youtube_videos_list E "snippet,status" videoId ;;
         match first_item videoCheck with
         | None => ret video_not_found
         | Some _ =>
             data <- youtube_commentThreads_insert E videoId (text_trim text) ;;
             Log_create E "ADD_COMMENT"
               [("videoId"%string, Some videoId); ("text"%string, text)] ;;
             ret (res_json (BJson data))
         end)
    (fun error =>
       let '(statusCode, errorMessage) := classify_addComment error in
       text_in_catch <- unbound_identifier "text" ;;
       Log_create E "ADD_COMMENT_ERROR"
         [("videoId"%string, Some videoId);
          ("text"%string, text_in_catch);
          ("error"%string, Some (message error))] ;;
       ret (res_status_json statusCode
              [("error"%string, js "Comment failed");
               ("message"%string, errorMessage);
               ("details"%string, message error)])).

Definition classify_reply (error : js_error) : Z * jsstring :=
  if code_is error 400 then (400, message error)
  else if code_is error 401
  then (401, js "Authentication required. Please login again.")
  else if code_is error 403
  then (403, js "Permission denied. Check your YouTube API quota or permissions.")
  else if code_is error 404
  then (404, js "Comment not found or you don't have permission to reply.")
  else (500, js "Failed to reply to comment").

(** POST /api/comment/:id/reply.  As in the comment handler, the catch
    block reads [text], which only the [try] block declares. *)
Definition replyComment (E : env) (commentId : jsstring) (text : option jsstring)
  : M response :=
  try_catch
    (if text_required text
     then ret (invalid_input "Reply text is required")
     else if text_too_long text
     then ret (invalid_input "Reply text is too long (max 10000 characters)")
     else
       tokenValid <- ensureValidToken E ;;
       if negb tokenValid then ret auth_required
       else
         data <- youtube_comments_insert E commentId (text_trim text) ;;
         Log_create E "REPLY_COMMENT"
           [("commentId"%string, Some commentId); ("text"%string, text)] ;;
         ret (res_json (BJson data)))
    (fun error =>
       let '(statusCode, errorMessage) := classify_reply error in
       text_in_catch <- unbound_identifier "text" ;;
       Log_create E "REPLY_COMMENT_ERROR"
         [("commentId"%string, Some commentId);
          ("text"%string, text_in_catch);
          ("error"%string, Some (message error))] ;;
       ret (res_status_json statusCode
              [("error"%string, js "Reply failed");
               ("message"%string, errorMessage);
               ("details"%string, message error)])).

Definition classify_delete (error : js_error) : Z * jsstring :=
  if code_is error 400 then (400, message error)
  else if code_is error 401
  then (401, js "Authentication required. Please login again.")
  else if code_is error 403
  then (403, js "Permission denied. You can only delete your own comments.")
  else if code_is error 404
  then (404, js "Comment not found.")
  else (500, js "Failed to delete comment").

(** DELETE /api/comment/:id *)
Definition deleteComment (E : env) (commentId : jsstring) : M response :=
  try_catch
    (tokenValid <- ensureValidToken E ;;
     if negb tokenValid then ret auth_required
     else
       youtube_comments_delete E commentId ;;
       Log_create E "DELETE_COMMENT" [("commentId"%string, Some commentId)] ;;
       ret (res_json (BFields [("message"%string, js "Comment deleted successfully")])))
    (fun error =>
       let '(statusCode, errorMessage) := classify_delete error in
       Log_create E "DELETE_COMMENT_ERROR"
         [("commentId"%string, Some commentId);
          ("error"%string, Some (message error))] ;;
       ret (res_status_json statusCode
              [("error"%string, js "Delete failed");
               ("message"%string, errorMessage);
               ("details"%string, message error)])).

(** ** Regular expressions: the fragment of [$regex] modelled here

    [Note.find({ text: { $regex: q, $options: "i" } })] hands [q] to the
    store as a regular expression.  The fragment covers ordinary
    characters, [.], a backslash before a metacharacter, and [*] after one
    of these; [parse] answers [None] on every other pattern. *)

Module Regex.

Inductive atom :=
| Lit (c : code_unit)
| Dot.

Inductive token :=
| TAtom (a : atom)
| TStar.

Inductive piece :=
| One (a : atom)
| Star (a : atom).

Definition pattern := list piece.

(** The characters with a meaning of their own in a pattern:
    [\ ^ $ . | ? * + ( ) [ ] { }]. *)
Definition is_meta (c : code_unit) : bool :=
  existsb (N.eqb c) (js "\^$.|?*+()[]{}").

Fixpoint lex (q : jsstring) : option (list token) :=
  match q with
  | [] => Some []
  | c :: rest =>
      if (c =? 92)%N then
        match rest with
        | d :: rest' =>
            if is_meta d
            then option_map (cons (TAtom (Lit d))) (lex rest')
            else None
        | [] => None
        end
      else if (c =? 46)%N then option_map (cons (TAtom Dot)) (lex rest)
      else if (c =? 42)%N then option_map (cons TStar) (lex rest)
      else if is_meta c then None
      else option_map (cons (TAtom (Lit c))) (lex rest)
  end.

Fixpoint group (ts : list token) : option pattern :=
  match ts with
  | [] => Some []
  | TStar :: _ => None
  | TAtom a :: TStar :: ts' => option_map (cons (Star a)) (group ts')
  | TAtom a :: ts' => option_map (cons (One a)) (group ts')
  end.

Definition parse (q : jsstring) : option pattern :=
  match lex q with
  | Some ts => group ts
  | None => None
  end.

(** Two characters are the same letter under [$options: "i"]: they are
    equal once A-Z is lowered, or the engine takes them for the same
    letter ([ci], its verdict on the lowered characters). *)
Definition same_letter (ci : code_unit -> code_unit -> bool)
    (a b : code_unit) : bool :=
  (fold_case a =? fold_case b)%N || ci (fold_case a) (fold_case b).

(** A literal matches caselessly; [.] matches every character but the
    newline. *)
Definition atom_matches (ci : code_unit -> code_unit -> bool)
    (a : atom) (c : code_unit) : bool :=
  match a with
  | Lit l => same_letter ci l c
  | Dot => negb (c =? 10)%N
  end.

(** Does the pattern match a prefix of the text? *)
Fixpoint match_here (ci : code_unit -> code_unit -> bool) (p : pattern)
  : jsstring -> bool :=
  match p with
  | [] => fun _ => true
  | One a :: p' =>
      fun s =>
        match s with
        | c :: s' => atom_matches ci a c && match_here ci p' s'
        | [] => false
        end
  | Star a :: p' =>
      fix star (s : jsstring) : bool :=
        match_here ci p' s
        || match s with
           | c :: s' => atom_matches ci a c && star s'
           | [] => false
           end
  end.

(** An unanchored match: the pattern matches somewhere in the text. *)
Fixpoint search (ci : code_unit -> code_unit -> bool) (p : pattern)
    (s : jsstring) : bool :=
  match_here ci p s
  || match s with
     | [] => false
     | _ :: s' => search ci p s'
     end.

End Regex.

(** ** Notes and logs *)

(** The test [{ $regex: q, $options: "i" }] compiles to: the search of the
    fragment, or what the engine makes of the pattern. *)
Definition regex_test (E : env) (q : jsstring) : result (jsstring -> bool) :=
  match Regex.parse q with
  | Some p => Val (Regex.search (regex_caseless E) p)
  | None => regex_beyond E q
  end.

(** [Note.find(filter)], in the store's natural order: all notes, or the
    notes whose text matches [q]; a pattern the engine rejects fails the
    query. *)
Definition Note_find (E : env) (filter : option jsstring) : M (list note) :=
  fun w =>
    match store_fault E with
    | Some e => (Thrown e, w)
    | None =>
        match filter with
        | None => (Val (notes w), w)
        | Some q =>
            match regex_test E q with
            | Val matches =>
                (Val (List.filter
                        (fun n =>
                           match note_text n with
                           | Some t => matches t
                           | None => false
                           end)
                        (notes w)),
                 w)
            | Thrown e => (Thrown e, w)
            end
        end
    end.

Definition notes_response (E : env) (filter : option jsstring) : M response :=
  try_catch
    (ns <- Note_find E filter ;;
     ret (res_json (BNotes ns)))
    (fun error =>
       ret (res_status_json 500
              [("error"%string, js "Failed to fetch notes");
               ("message"%string, message error)])).

(** GET /api/notes: [q ? Note.find({ text: { $regex: q, ... } }) :
    Note.find()]. *)
Definition listNotes (E : env) (q : option jsstring) : M response :=
  match q with
  | Some (c :: q') => notes_response E (Some (c :: q'))
  | _ => notes_response E None
  end.

(** The run of GET /api/notes; there is one for every query. *)
Definition getNotes (E : env) (q : option jsstring) : option (M response) :=
  Some (listNotes E q).

(** [.sort({ createdAt: -1 })]: entries with equal times keep the store's
    order. *)
Fixpoint insert_desc (e : log_entry) (l : list log_entry) : list log_entry :=
  match l with
  | [] => [e]
  | x :: l' =>
      if createdAt x <=? createdAt e then e :: l else x :: insert_desc e l'
  end.

Definition sort_createdAt_desc (l : list log_entry) : list log_entry :=
  fold_right insert_desc [] l.

Definition Log_find_sorted (E : env) : M (list log_entry) :=
  fun w =>
    match store_fault E with
    | Some e => (Thrown e, w)
    | None => (Val (sort_createdAt_desc (logs w)), w)
    end.

(** GET /api/logs *)
Definition getLogs (E : env) : M response :=
  try_catch
    (ls <- Log_find_sorted E ;;
     ret (res_json (BLogs ls)))
    (fun error =>
       ret (res_status_json 500
              [("error"%string, js "Failed to fetch logs");
               ("message"%string, message error)])).

(** ** Observations on a run *)

(** The calls a run added to the record. *)
Definition new_calls (w w' : world) : list call :=
  skipn (List.length (calls w)) (calls w').

(** The world once call [c] is on the record. *)
Definition noted (c : call) (w : world) : world :=
  {| creds := creds w; notes := notes w; logs := logs w;
     calls := calls w ++ [c] |}.

Definition is_refresh_call (c : call) : bool :=
  match c with
  | CRefreshAccessToken => true
  | _ => false
  end.

(** The test of [ensureValidToken]. *)
Definition token_stale (E : env) (c : credentials) : bool :=
  negb (truthy_str (access_token c))
  || (truthy_num (expiry_date c)
      && match expiry_date c with Some e => e <=? now E | None => false end).

(** Does [ensureValidToken] invoke [refreshAccessToken] from this state? *)
Definition invokes_refresh (E : env) (w : world) : bool :=
  existsb is_refresh_call (new_calls w (snd (ensureValidToken E w))).

(** The condition under which the Token Manager refreshes: the access
    token is absent or empty, or an expiry other than 0 is recorded and
    the clock has reached it. *)
Definition needs_refresh (E : env) (c : credentials) : Prop :=
  (access_token c = None \/ access_token c = Some [])
  \/ exists e, expiry_date c = Some e /\ e <> 0 /\ e <= now E.

(** The refresh condition in the words of the specification: the access
    token is absent, or an expiry is recorded and the clock has reached
    it. *)
Definition spec_needs_refresh (E : env) (c : credentials) : Prop :=
  access_token c = None
  \/ exists e, expiry_date c = Some e /\ e <= now E.

Definition has_field (k : string) (r : response) : bool :=
  match res_body r with
  | BFields fields => existsb (fun kv => String.eqb k (fst kv)) fields
  | _ => false
  end.

(** The classification of a platform failure in the words of the
    specification: the status follows the reported code and the body has
    the three fields. *)
Definition spec_classified (error : js_error) (r : response) : Prop :=
  (code_is error 401 = true -> status r = 401)
  /\ (code_is error 403 = true -> status r = 403)
  /\ (code_is error 404 = true -> status r = 404)
  /\ (code_is error 400 = false -> code_is error 401 = false ->
      code_is error 403 = false -> code_is error 404 = false ->
      status r = 500)
  /\ has_field "error" r = true
  /\ has_field "message" r = true
  /\ has_field "details" r = true.

(** Every mutating call on the record comes after a read call: scanning
    the record, a read call is met before any mutating call. *)
Fixpoint reads_before_mutating (cs : list call) : bool :=
  match cs with
  | [] => true
  | c :: cs' =>
      is_read_call c || (negb (is_mutating_call c) && reads_before_mutating cs')
  end.

(** The status the catch block of the delete handler answers with. *)
Definition status_of_code (error : js_error) : Z :=
  if code_is error 400 then 400
  else if code_is error 401 then 401
  else if code_is error 403 then 403
  else if code_is error 404 then 404
  else 500.

(** The snippet the PUT handler sends back to the platform. *)
Definition merged_snippet (title' description' : option jsstring)
    (current : snippet) : snippet :=
  {| title := or_else title' (title current);
     description := or_else description' (description current);
     snippet_rest := snippet_rest current |}.

Definition error_log (E : env) (act : string) (key : string) (id : jsstring)
    (error : js_error) : log_entry :=
  {| action := js act;
     details := [(key, Some id); ("error"%string, Some (message error))];
     createdAt := now E |}.

Definition comment_log (E : env) (act key : string) (id : jsstring)
    (text : option jsstring) : log_entry :=
  {| action := js act;
     details := [(key, Some id); ("text"%string, text)];
     createdAt := now E |}.

Definition logged (e : log_entry) (w : world) : world :=
  {| creds := creds w; notes := notes w; logs := logs w ++ [e];
     calls := calls w |}.

(** [q] occurs in [t], letter case aside. *)
Definition contains_ci (t q : jsstring) : Prop :=
  exists pre post,
    map fold_case t = pre ++ map fold_case q ++ post.

Definition includes_ci (t q : jsstring) : bool :=
  includes (map fold_case t) (map fold_case q).



Fixpoint starts_caseless (E : env) (s prefix : jsstring) {struct prefix} : bool :=
  match prefix, s with
  | [], _ => true
  | p :: prefix', c :: s' =>
      Regex.same_letter (regex_caseless E) p c && starts_caseless E s' prefix'
  | _ :: _, [] => false
  end.

Fixpoint includes_caseless (E : env) (s needle : jsstring) : bool :=
  starts_caseless E s needle
  || match s with
     | [] => false
     | _ :: s' => includes_caseless E s' needle
     end.


(** A query without metacharacters. *)
Definition plain_query (q : jsstring) : bool :=
  forallb (fun c => negb (Regex.is_meta c)) q.

Definition whitespace_only (s : jsstring) : bool := forallb is_ws s.

(** Sorted by creation time, newest first. *)
Definition newest_first (l : list log_entry) : Prop :=
  StronglySorted (fun a b => createdAt b <= createdAt a) l.

(** ** Sample states and environments *)

Module Sample.

Definition err (c : Z) (msg : string) : js_error :=
  {| code := Some c; message := js msg |}.

(** An engine that also pairs the accented capitals of Latin-1 with
    their lower case. *)
Definition latin1_lower (c : code_unit) : code_unit :=
  if ((192 <=? c) && (c <=? 222) && negb (c =? 215))%N then (c + 32)%N else c.

Definition latin1_caseless (a b : code_unit) : bool :=
  (latin1_lower a =? latin1_lower b)%N.

(** An engine that rejects every pattern outside the fragment. *)
Definition no_pattern (q : jsstring) : result (jsstring -> bool) :=
  Thrown (err 51091 "Regular expression is invalid").

Definition fresh : credentials :=
  {| access_token := Some (js "ya29.fresh");
     expiry_date := Some 7200000;
     refresh_token := Some (js "1//refresh") |}.

Definition a_snippet : snippet :=
  {| title := Some (js "Old title");
     description := Some (js "Old description");
     snippet_rest := [("categoryId"%string, js "22")] |}.

Definition a_video : video :=
  {| video_id := js "dQw4w9WgXcQ"; video_snippet := a_snippet |}.

(** A cooperative outside world at time 1000. *)
Definition env_ok : env :=
  {| now := 1000;
     oauth_refresh := fun _ => Val fresh;
     videos_list := fun _ _ => Val (Some [a_video]);
     videos_update := fun _ _ => Val (js "{updated}");
     commentThreads_insert := fun _ _ => Val (js "{thread}");
     comments_insert := fun _ _ => Val (js "{comment}");
     comments_delete := fun _ => Val tt;
     store_fault := None;
     regex_caseless := latin1_caseless;
     regex_beyond := no_pattern |}.

(** The provider refuses to refresh. *)
Definition env_revoked : env :=
  {| now := 1000;
     oauth_refresh := fun _ => Thrown (err 400 "invalid_grant");
     videos_list := fun _ _ => Val (Some [a_video]);
     videos_update := fun _ _ => Val (js "{updated}");
     commentThreads_insert := fun _ _ => Val (js "{thread}");
     comments_insert := fun _ _ => Val (js "{comment}");
     comments_delete := fun _ => Val tt;
     store_fault := None;
     regex_caseless := latin1_caseless;
     regex_beyond := no_pattern |}.

(** The platform fails every call with the given error. *)
Definition env_failing (e : js_error) : env :=
  {| now := 1000;
     oauth_refresh := fun _ => Val fresh;
     videos_list := fun _ _ => Thrown e;
     videos_update := fun _ _ => Thrown e;
     commentThreads_insert := fun _ _ => Thrown e;
     comments_insert := fun _ _ => Thrown e;
     comments_delete := fun _ => Thrown e;
     store_fault := None;
     regex_caseless := latin1_caseless;
     regex_beyond := no_pattern |}.

(** The platform knows no video. *)
Definition env_no_video : env :=
  {| now := 1000;
     oauth_refresh := fun _ => Val fresh;
     videos_list := fun _ _ => Val (Some []);
     videos_update := fun _ _ => Val (js "{updated}");
     commentThreads_insert := fun _ _ => Val (js "{thread}");
     comments_insert := fun _ _ => Val (js "{comment}");
     comments_delete := fun _ => Val tt;
     store_fault := None;
     regex_caseless := latin1_caseless;
     regex_beyond := no_pattern |}.

Definition world_with (c : credentials) : world :=
  {| creds := c; notes := []; logs := []; calls := [] |}.

(** A token that is still good at time 1000. *)
Definition valid : credentials :=
  {| access_token := Some (js "ya29.current");
     expiry_date := Some 5000;
     refresh_token := Some (js "1//refresh") |}.

(** A token that ran out at time 500. *)
Definition expired : credentials :=
  {| access_token := Some (js "ya29.old");
     expiry_date := Some 500;
     refresh_token := Some (js "1//refresh") |}.

(** Only the refresh token of the configuration. *)
Definition startup : credentials :=
  {| access_token := None; expiry_date := None;
     refresh_token := Some (js "1//refresh") |}.

(** A token whose recorded expiry is the number 0. *)
Definition zero_expiry : credentials :=
  {| access_token := Some (js "ya29.current");
     expiry_date := Some 0;
     refresh_token := Some (js "1//refresh") |}.

(** A token that is the empty string, with no recorded expiry. *)
Definition empty_token : credentials :=
  {| access_token := Some []; expiry_date := None;
     refresh_token := Some (js "1//refresh") |}.

Definition a_note (t : string) : note :=
  {| note_videoId := None; note_text := Some (js t); note_tags := [] |}.

Definition a_log (act : string) (t : Z) : log_entry :=
  {| action := js act; details := []; createdAt := t |}.

(** Ten thousand letters. *)
Definition long_text : jsstring := repeat 97%N (Z.to_nat 10000).

End Sample.

(** ** The rest of the server: OAuth callback, startup, note creation *)

(** What the two authentication routes answer: [res.redirect(url)] or
    [res.status(st).send(text)]. *)
Inductive auth_response :=
| Redirect (url : jsstring)
| Send (st : Z) (text : jsstring).

(** GET /oauth2callback.  [getToken] is the provider's answer to the
    exchange of [req.query.code]. *)
Definition oauth2callback (getToken : option jsstring -> result credentials)
    (code : option jsstring) : M auth_response :=
  try_catch
    (tokens <- lift_result (getToken code) ;;
     setCredentials tokens ;;
     ret (Redirect (js "http://localhost:3000/dashboard")))
    (fun err => ret (Send 500 (js "Authentication failed"))).

(** The credentials once the module is loaded: those of a new client,
    with the refresh token of the configuration when there is one. *)
Definition startup_credentials (REFRESH_TOKEN : option jsstring) : credentials :=
  if truthy_str REFRESH_TOKEN
  then {| access_token := None; expiry_date := None;
          refresh_token := REFRESH_TOKEN |}
  else {| access_token := None; expiry_date := None; refresh_token := None |}.

(** A note as the [details] of a log entry: its fields, one pair per tag. *)
Definition note_details (n : note) : list (string * option jsstring) :=
  [("videoId"%string, note_videoId n); ("text"%string, note_text n)]
  ++ map (fun t => ("tags"%string, Some t)) (note_tags n).

(** [Note.create(doc)]: the document goes to the end of the collection. *)
Definition Note_create (E : env) (doc : note) : M note :=
  fun w =>
    match store_fault E with
    | Some e => (Thrown e, w)
    | None =>
        (Val doc,
         {| creds := creds w; notes := notes w ++ [doc]; logs := logs w;
            calls := calls w |})
    end.

(** POST /api/notes: the created note, or an error response. *)
Definition postNote (E : env) (doc : note) : M (note + response) :=
  try_catch
    (n <- Note_create E doc ;;
     Log_create E "ADD_NOTE" (note_details n) ;;
     ret (inl n))
    (fun error =>
       ret (inr (res_status_json 500
                   [("error"%string, js "Failed to add note");
                    ("message"%string, message error)]))).

(** ** Further observations *)



(** The statuses the API answers with. *)
Definition known_status (st : Z) : bool :=
  existsb (Z.eqb st) [200; 400; 401; 403; 404; 500].

(** Credentials that need no refresh at time [t]: a non-empty access
    token, and no recorded expiry or one after [t]. *)
Definition fresh_at (t : Z) (c : credentials) : Prop :=
  truthy_str (access_token c) = true
  /\ (expiry_date c = None \/ exists e, expiry_date c = Some e /\ t < e).

(** A text with something in it and no whitespace at either end. *)
Definition well_trimmed (t : jsstring) : Prop :=
  t <> []
  /\ (forall c t', t = c :: t' -> is_ws c = false)
  /\ (forall t' c, t = t' ++ [c] -> is_ws c = false).

(** The text a call hands to the platform, when it carries one. *)
Definition call_text (c : call) : option jsstring :=
  match c with
  | CCommentThreadsInsert _ t | CCommentsInsert _ t => Some t
  | _ => None
  end.


(** The entries a run appended to the log: at most one, stamped with the
    time of the request, the earlier entries kept as they were. *)
Definition appends_at_most_one (E : env) (w w' : world) : Prop :=
  exists l,
    logs w' = logs w ++ l
    /\ (List.length l <= 1)%nat
    /\ Forall (fun e => createdAt e = now E) l.

(** The log grew by exactly one entry with this action tag. *)
Definition logged_action (E : env) (act : string) (w w' : world) : Prop :=
  exists det,
    logs w' = logs w ++ [{| action := js act; details := det;
                            createdAt := now E |}].

(** * Properties *)

(** ** The monad and the Token Manager *)

Lemma new_calls_app (w w' : world) (cs : list call) :
  calls w' = calls w ++ cs -> new_calls w w' = cs.
Proof.
  intros H. unfold new_calls. rewrite H.
  rewrite skipn_app, skipn_all, Nat.sub_diag. reflexivity.
Qed.

(** What [refreshAccessToken] does, by the provider's answer. *)
Lemma refreshAccessToken_eq (E : env) (w : world) :
  refreshAccessToken E w =
  let w1 := noted COAuthRefresh (noted CRefreshAccessToken w) in
  match oauth_refresh E (creds w) with
  | Val c' =>
      (Val true,
       {| creds := c'; notes := notes w1; logs := logs w1; calls := calls w1 |})
  | Thrown _ => (Val false, w1)
  end.
Proof.
  unfold refreshAccessToken, oauth2Client_refreshAccessToken, try_catch, bind,
    record_call, getCredentials, lift_result, setCredentials, ret, noted.
  simpl. destruct (oauth_refresh E (creds w)); reflexivity.
Qed.

Lemma ensureValidToken_eq (E : env) (w : world) :
  ensureValidToken E w =
  if token_stale E (creds w)
  then refreshAccessToken E (noted CEnsureValidToken w)
  else (Val true, noted CEnsureValidToken w).
Proof.
  unfold ensureValidToken, token_stale, try_catch, bind, record_call,
    getCredentials, ret, noted.
  simpl.
  destruct (negb (truthy_str (access_token (creds w))) || _); [|reflexivity].
  match goal with |- context [refreshAccessToken E ?x] =>
    rewrite (refreshAccessToken_eq E x) end.
  simpl. destruct (oauth_refresh E (creds w)); reflexivity.
Qed.

Lemma token_stale_iff (E : env) (c : credentials) :
  token_stale E c = true <-> needs_refresh E c.
Proof.
  unfold token_stale, needs_refresh, truthy_str, truthy_num.
  destruct (access_token c) as [[|a t]|]; simpl.
  - split; auto.
  - destruct (expiry_date c) as [e|]; simpl.
    + rewrite andb_true_iff, negb_true_iff, Z.eqb_neq, Z.leb_le. split.
      * intros [H1 H2]. right. exists e. auto.
      * intros [[H|H]|[e' [H [H1 H2]]]]; try discriminate.
        injection H as <-. auto.
    + split; [discriminate|].
      intros [[H|H]|[e' [H _]]]; discriminate.
  - split; auto.
Qed.

Lemma refreshAccessToken_calls (E : env) (w : world) :
  calls (snd (refreshAccessToken E w)) =
  calls w ++ [CRefreshAccessToken; COAuthRefresh].
Proof.
  rewrite refreshAccessToken_eq. simpl.
  destruct (oauth_refresh E (creds w)); simpl;
    rewrite <- app_assoc; reflexivity.
Qed.

Lemma ensureValidToken_calls (E : env) (w : world) :
  calls (snd (ensureValidToken E w)) =
  calls w ++ CEnsureValidToken ::
    (if token_stale E (creds w) then [CRefreshAccessToken; COAuthRefresh] else []).
Proof.
  rewrite ensureValidToken_eq.
  destruct (token_stale E (creds w)).
  - rewrite refreshAccessToken_calls. simpl. rewrite <- app_assoc. reflexivity.
  - reflexivity.
Qed.

(** The Token Manager never throws, touches neither collection and issues
    no platform call. *)
Lemma ensureValidToken_frame (E : env) (w w' : world) (r : result bool) :
  ensureValidToken E w = (r, w') ->
  (exists b, r = Val b)
  /\ notes w' = notes w /\ logs w' = logs w
  /\ exists cs, calls w' = calls w ++ CEnsureValidToken :: cs
                /\ forallb is_token_manager_call cs = true.
Proof.
  intros H.
  pose proof (ensureValidToken_calls E w) as Hc. rewrite H in Hc. simpl in Hc.
  assert (Hr : (exists b, r = Val b) /\ notes w' = notes w /\ logs w' = logs w).
  { rewrite ensureValidToken_eq in H.
    destruct (token_stale E (creds w)).
    - rewrite refreshAccessToken_eq in H. simpl in H.
      destruct (oauth_refresh E (creds w)); injection H as <- <-; simpl; eauto.
    - injection H as <- <-. simpl. eauto. }
  destruct Hr as [Hb [Hn Hl]]. repeat split; auto.
  eexists. split; [exact Hc|].
  destruct (token_stale E (creds w)); reflexivity.
Qed.

Lemma filter_platform_token_calls (cs : list call) :
  forallb is_token_manager_call cs = true -> filter is_platform_call cs = [].
Proof.
  induction cs as [|c cs IH]; simpl; [reflexivity|].
  rewrite andb_true_iff. intros [Hc Hcs].
  destruct c; simpl in *; try discriminate; auto.
Qed.

(** ** C1: when the Token Manager refreshes *)

(** C1, as stated, does not hold.  With an access token whose recorded
    expiry is the number 0, the clock (1000) is past the expiry, yet
    [ensureValidToken] answers true without invoking [refreshAccessToken];
    and with an access token that is the empty string and no recorded
    expiry, it does invoke [refreshAccessToken]. *)
Lemma ensureValidToken_zero_expiry_no_refresh :
  let E := Sample.env_ok in
  let w := Sample.world_with Sample.zero_expiry in
  let w' := Sample.world_with Sample.empty_token in
  ~ (invokes_refresh E w = true <-> spec_needs_refresh E (creds w))
  /\ ensureValidToken E w = (Val true, noted CEnsureValidToken w)
  /\ ~ (invokes_refresh E w' = true <-> spec_needs_refresh E (creds w')).
Proof.
  intros E w w'. refine (conj _ (conj eq_refl _)).
  - intros [_ H].
    assert (Hs : spec_needs_refresh E (creds w)).
    { right. exists 0. split; [reflexivity|]. simpl. lia. }
    apply H in Hs. vm_compute in Hs. discriminate.
  - intros [H _].
    destruct (H eq_refl) as [Hs | [e [Hs _]]]; discriminate.
Qed.

(** C1 (amended): [ensureValidToken] invokes [refreshAccessToken] if and
    only if the access token is absent or empty, or an expiry other than 0
    is recorded and the current time is at or past it.  Otherwise (in
    particular with a non-empty token and either no recorded expiry or an
    expiry strictly in the future) it returns true without refreshing,
    with nothing but its own call on the record; and when it refreshes,
    its result and final state are those of [refreshAccessToken]. *)
Theorem ensureValidToken_refreshes_iff_needed (E : env) (w : world) :
  (invokes_refresh E w = true <-> needs_refresh E (creds w))
  /\ (~ needs_refresh E (creds w) ->
      ensureValidToken E w = (Val true, noted CEnsureValidToken w))
  /\ (forall c t,
       access_token (creds w) = Some (c :: t) ->
       (expiry_date (creds w) = None
        \/ exists e, expiry_date (creds w) = Some e /\ now E < e) ->
       ensureValidToken E w = (Val true, noted CEnsureValidToken w)
       /\ invokes_refresh E w = false)
  /\ (needs_refresh E (creds w) ->
      ensureValidToken E w = refreshAccessToken E (noted CEnsureValidToken w)).
Proof.
  assert (Hfresh : forall c t,
            access_token (creds w) = Some (c :: t) ->
            (expiry_date (creds w) = None
             \/ exists e, expiry_date (creds w) = Some e /\ now E < e) ->
            token_stale E (creds w) = false).
  { intros c t Ht He. unfold token_stale. rewrite Ht. simpl.
    destruct He as [-> | [e [-> Hlt]]]; [reflexivity|].
    simpl. apply andb_false_iff. right. apply Z.leb_gt, Hlt. }
  rewrite <- token_stale_iff.
  unfold invokes_refresh.
  rewrite (new_calls_app _ _ _ (ensureValidToken_calls E w)).
  rewrite ensureValidToken_eq.
  destruct (token_stale E (creds w)); simpl.
  - refine (conj _ (conj _ (conj _ _))).
    + tauto.
    + intros H. exfalso. apply H. reflexivity.
    + intros c t Ht He. discriminate (Hfresh c t Ht He).
    + reflexivity.
  - refine (conj _ (conj _ (conj _ _))).
    + split; discriminate.
    + reflexivity.
    + split; reflexivity.
    + discriminate.
Qed.

Lemma ensureValidToken_refreshes_iff_needed_witness :
  ensureValidToken Sample.env_ok (Sample.world_with Sample.expired) =
  refreshAccessToken Sample.env_ok
    (noted CEnsureValidToken (Sample.world_with Sample.expired))
  /\ ensureValidToken Sample.env_ok (Sample.world_with Sample.valid) =
     (Val true, noted CEnsureValidToken (Sample.world_with Sample.valid)).
Proof.
  split.
  - apply (proj2 (proj2 (proj2 (ensureValidToken_refreshes_iff_needed
             Sample.env_ok (Sample.world_with Sample.expired))))).
    right. exists 500. simpl. repeat split; lia.
  - apply (proj1 (proj2 (ensureValidToken_refreshes_iff_needed
             Sample.env_ok (Sample.world_with Sample.valid)))).
    intros [[H|H]|[e [H [_ Hle]]]]; try discriminate.
    injection H as <-. simpl in Hle. lia.
Defined.

(** ** C2: the refresh is all or nothing *)

(** C2: when the provider answers with credentials, [refreshAccessToken]
    returns true and the Token State holds the new access token and
    expiry; when the provider call throws, it returns false and no field
    of the credentials changes (nor does either collection). *)
Theorem refreshAccessToken_overwrites_or_keeps (E : env) (w : world) :
  match oauth_refresh E (creds w) with
  | Val c' =>
      fst (refreshAccessToken E w) = Val true
      /\ access_token (creds (snd (refreshAccessToken E w))) = access_token c'
      /\ expiry_date (creds (snd (refreshAccessToken E w))) = expiry_date c'
  | Thrown _ =>
      fst (refreshAccessToken E w) = Val false
      /\ creds (snd (refreshAccessToken E w)) = creds w
      /\ notes (snd (refreshAccessToken E w)) = notes w
      /\ logs (snd (refreshAccessToken E w)) = logs w
  end.
Proof.
  rewrite refreshAccessToken_eq. simpl.
  destruct (oauth_refresh E (creds w)); simpl; auto.
Qed.

(** ** Running a handler *)

Ltac unfold_handlers :=
  unfold getVideo, putVideo, addComment, replyComment, deleteComment,
    getLogs, listNotes, notes_response, Note_find, Log_find_sorted,
    youtube_videos_list, youtube_videos_update,
    youtube_commentThreads_insert, youtube_comments_insert,
    youtube_comments_delete, Log_create, unbound_identifier,
    try_catch, bind, record_call, lift_result, ret, throw.

(** Case split on the status and message a catch block computed. *)
Ltac split_classify :=
  repeat match goal with
         | |- context [classify_addComment ?e] => destruct (classify_addComment e)
         | |- context [classify_reply ?e] => destruct (classify_reply e)
         | |- context [classify_delete ?e] => destruct (classify_delete e)
         end.

(** ** Whitespace and trimming *)

Lemma trimStart_nil_iff (s : jsstring) :
  trimStart s = [] <-> whitespace_only s = true.
Proof.
  unfold whitespace_only.
  induction s as [|c s IH]; simpl; [tauto|].
  destruct (is_ws c); simpl; [exact IH|].
  split; discriminate.
Qed.

Lemma trimStart_head (s t : jsstring) (c : code_unit) :
  trimStart s = c :: t -> is_ws c = false.
Proof.
  induction s as [|d s IH]; simpl; [discriminate|].
  destruct (is_ws d) eqn:Hd; [exact IH|].
  intros H. injection H as <- _. exact Hd.
Qed.

Lemma whitespace_only_rev (s : jsstring) :
  whitespace_only (rev s) = whitespace_only s.
Proof.
  unfold whitespace_only.
  apply eq_true_iff_eq. rewrite !forallb_forall.
  split; intros H x Hx; apply H.
  - apply in_rev. rewrite rev_involutive. exact Hx.
  - apply in_rev in Hx. exact Hx.
Qed.

Lemma trimStart_whitespace_only (s : jsstring) :
  whitespace_only (trimStart s) = whitespace_only s.
Proof.
  unfold whitespace_only.
  induction s as [|c s IH]; simpl; [reflexivity|].
  destruct (is_ws c) eqn:Hc; simpl; [exact IH|].
  rewrite Hc. reflexivity.
Qed.

(** Trimming leaves nothing exactly when the text is whitespace only. *)
Lemma trim_nil_iff (s : jsstring) :
  trim s = [] <-> whitespace_only s = true.
Proof.
  unfold trim, trimEnd.
  rewrite <- (trimStart_whitespace_only s), <- (whitespace_only_rev (trimStart s)).
  rewrite <- trimStart_nil_iff.
  split; intros H.
  - apply (f_equal (@rev code_unit)) in H. rewrite rev_involutive in H. exact H.
  - rewrite H. reflexivity.
Qed.

Lemma text_required_Some (s : jsstring) :
  text_required (Some s) = whitespace_only s.
Proof.
  unfold text_required, truthy_str, strlen.
  apply eq_true_iff_eq. rewrite <- trim_nil_iff.
  destruct s as [|c s]; simpl negb; simpl orb.
  - split; reflexivity.
  - rewrite Z.eqb_eq. destruct (trim (c :: s)); simpl; split;
      try reflexivity; try discriminate; lia.
Qed.

(** A text without whitespace is its own trim. *)
Lemma trimStart_no_leading_ws (s : jsstring) :
  forallb (fun c => negb (is_ws c)) s = true -> trimStart s = s.
Proof.
  destruct s as [|c s]; simpl; [reflexivity|].
  rewrite andb_true_iff, negb_true_iff. intros [-> _]. reflexivity.
Qed.

Lemma trim_trailing_space (s : jsstring) :
  forallb (fun c => negb (is_ws c)) s = true -> trim (s ++ [32%N]) = s.
Proof.
  intros H. unfold trim, trimEnd.
  assert (Hs : trimStart (s ++ [32%N]) = s ++ [32%N] \/ s = []).
  { destruct s as [|c s]; [right; reflexivity|left].
    simpl in *. rewrite andb_true_iff, negb_true_iff in H.
    destruct H as [-> _]. reflexivity. }
  destruct Hs as [-> | ->]; [|reflexivity].
  rewrite rev_app_distr. simpl.
  rewrite trimStart_no_leading_ws; [apply rev_involutive|].
  rewrite forallb_forall in *. intros x Hx. apply H, in_rev, Hx.
Qed.

(** ** C3: no valid token, no platform call *)

(** C3: when [ensureValidToken] returns false, each of the five protected
    handlers (the PUT, comment and reply handlers once their input passed
    validation, which comes first) answers 401 with the
    authentication-required body and stops in the state the Token Manager
    left: no platform call is on the record and no log entry is written. *)
Theorem token_failure_answers_401
    (E : env) (w w1 : world) (id : jsstring)
    (title' description' text : option jsstring) :
  ensureValidToken E w = (Val false, w1) ->
  getVideo E id w = (Val auth_required, w1)
  /\ (truthy_str title' = true \/ truthy_str description' = true ->
      putVideo E id title' description' w = (Val auth_required, w1))
  /\ (text_required text = false -> text_too_long text = false ->
      addComment E id text w = (Val auth_required, w1)
      /\ replyComment E id text w = (Val auth_required, w1))
  /\ deleteComment E id w = (Val auth_required, w1)
  /\ status auth_required = 401
  /\ res_body auth_required =
     BFields [("error"%string, js "Authentication required");
              ("message"%string, js "Please login again")]
  /\ filter is_platform_call (new_calls w w1) = []
  /\ logs w1 = logs w.
Proof.
  intros H.
  destruct (ensureValidToken_frame E w w1 _ H) as [_ [_ [Hl [cs [Hc Htm]]]]].
  refine (conj _ (conj _ (conj _ (conj _ (conj _ (conj _ (conj _ Hl))))))).
  - unfold_handlers. rewrite H. reflexivity.
  - intros Hv. unfold_handlers.
    assert (Hb : negb (truthy_str title') && negb (truthy_str description') = false).
    { destruct Hv as [-> | ->]; simpl; auto using andb_false_r. }
    rewrite Hb, H. reflexivity.
  - intros Hreq Hlong. unfold_handlers. rewrite Hreq, Hlong, H.
    split; reflexivity.
  - unfold_handlers. rewrite H. reflexivity.
  - reflexivity.
  - reflexivity.
  - rewrite (new_calls_app _ _ _ Hc). simpl.
    apply filter_platform_token_calls. exact Htm.
Qed.

Lemma token_failure_answers_401_witness :
  let E := Sample.env_revoked in
  let w := Sample.world_with Sample.startup in
  let w1 := snd (ensureValidToken E w) in
  getVideo E (js "dQw4w9WgXcQ") w = (Val auth_required, w1)
  /\ putVideo E (js "dQw4w9WgXcQ") (Some (js "New title")) None w
     = (Val auth_required, w1)
  /\ addComment E (js "dQw4w9WgXcQ") (Some (js "Nice video")) w
     = (Val auth_required, w1)
  /\ replyComment E (js "Ugx1") (Some (js "Thanks")) w = (Val auth_required, w1)
  /\ deleteComment E (js "Ugx1") w = (Val auth_required, w1)
  /\ filter is_platform_call (new_calls w w1) = [].
Proof.
  intros E w w1.
  assert (H : ensureValidToken E w = (Val false, w1)) by reflexivity.
  destruct (token_failure_answers_401 E w w1 (js "dQw4w9WgXcQ")
              (Some (js "New title")) None (Some (js "Nice video")) H)
    as [Hget [Hput [Hadd [_ [_ [_ [Hcalls _]]]]]]].
  destruct (token_failure_answers_401 E w w1 (js "Ugx1")
              None None (Some (js "Thanks")) H)
    as [_ [_ [Hreply [Hdel _]]]].
  refine (conj Hget (conj (Hput _) (conj (proj1 (Hadd _ _))
            (conj (proj2 (Hreply _ _)) (conj Hdel Hcalls)))));
    try reflexivity.
  left. reflexivity.
Defined.

(** ** C4: validation of comment and reply text *)

(** C4: in the comment and the reply handler alike, a text that is
    missing, empty or whitespace only is answered 400, and so is every
    text longer than 10,000 characters (with the too-long message unless
    it is whitespace only); in both cases the state is left as it was, so
    neither the Token Manager nor the platform is called (and nothing is
    logged).  A text of exactly 10,000 characters that is not
    whitespace only passes validation: the handler goes on to call the
    Token Manager. *)
Theorem comment_text_validation
    (E : env) (id : jsstring) (text : option jsstring) (w : world) :
  ((text = None \/ exists s, text = Some s /\ whitespace_only s = true) ->
   addComment E id text w = (Val (invalid_input "Comment text is required"), w)
   /\ replyComment E id text w = (Val (invalid_input "Reply text is required"), w))
  /\ (forall s, text = Some s -> 10000 < strlen s ->
      (exists msg, addComment E id text w = (Val (invalid_input msg), w))
      /\ (exists msg, replyComment E id text w = (Val (invalid_input msg), w))
      /\ (whitespace_only s = false ->
          addComment E id text w =
            (Val (invalid_input "Comment text is too long (max 10000 characters)"), w)
          /\ replyComment E id text w =
            (Val (invalid_input "Reply text is too long (max 10000 characters)"), w)))
  /\ (forall msg, status (invalid_input msg) = 400)
  /\ (forall s, text = Some s -> whitespace_only s = false -> strlen s = 10000 ->
      (exists cs, new_calls w (snd (addComment E id text w))
                  = CEnsureValidToken :: cs)
      /\ (exists cs, new_calls w (snd (replyComment E id text w))
                     = CEnsureValidToken :: cs)).
Proof.
  split; [|split; [|split]].
  - intros Hreq.
    assert (Hr : text_required text = true).
    { destruct Hreq as [-> | [s [-> Hs]]]; [reflexivity|].
      rewrite text_required_Some. exact Hs. }
    unfold_handlers. rewrite Hr. split; reflexivity.
  - intros s -> Hlen.
    unfold_handlers. rewrite text_required_Some.
    unfold text_too_long. apply Z.ltb_lt in Hlen. rewrite Hlen.
    destruct (whitespace_only s).
    + refine (conj _ (conj _ _)); [eexists; reflexivity ..|discriminate].
    + refine (conj _ (conj _ _)); [eexists; reflexivity ..|].
      intros _. split; reflexivity.
  - reflexivity.
  - intros s -> Hs Hlen.
    assert (Hlong : text_too_long (Some s) = false).
    { unfold text_too_long. apply Z.ltb_ge. lia. }
    destruct (ensureValidToken E w) as [r w1] eqn:He.
    destruct (ensureValidToken_frame E w w1 r He) as [[b ->] [_ [_ [cs [Hc _]]]]].
    assert (Hext : forall w2 l, calls w2 = calls w1 ++ l ->
              exists cs', new_calls w w2 = CEnsureValidToken :: cs').
    { intros w2 l H2. eexists. apply new_calls_app. rewrite H2, Hc.
      rewrite <- app_assoc. reflexivity. }
    split.
    + unfold_handlers. rewrite text_required_Some, Hs, Hlong, He.
      destruct b; simpl; [|apply (Hext w1 []), eq_sym, app_nil_r].
      destruct (videos_list E _ id) as [items|e]; simpl;
        [destruct (first_item items); simpl;
         [destruct (commentThreads_insert E id _) as [d|e]; simpl;
          [destruct (store_fault E) as [e|]; simpl|]|]|];
        try destruct (classify_addComment e); simpl;
        eapply Hext; simpl; rewrite <- ?app_assoc; reflexivity.
    + unfold_handlers. rewrite text_required_Some, Hs, Hlong, He.
      destruct b; simpl; [|apply (Hext w1 []), eq_sym, app_nil_r].
      destruct (comments_insert E id _) as [d|e]; simpl;
        [destruct (store_fault E) as [e|]; simpl|];
        try destruct (classify_reply e); simpl;
        eapply Hext; simpl; rewrite <- ?app_assoc; reflexivity.
Qed.

Lemma comment_text_validation_witness :
  let E := Sample.env_ok in
  let w := Sample.world_with Sample.valid in
  let id := js "dQw4w9WgXcQ" in
  (addComment E id (Some (js "   ")) w
   = (Val (invalid_input "Comment text is required"), w)
   /\ replyComment E id (Some (js "   ")) w
      = (Val (invalid_input "Reply text is required"), w))
  /\ (addComment E id (Some (33%N :: Sample.long_text)) w
      = (Val (invalid_input "Comment text is too long (max 10000 characters)"), w)
      /\ replyComment E id (Some (33%N :: Sample.long_text)) w
         = (Val (invalid_input "Reply text is too long (max 10000 characters)"), w))
  /\ ((exists cs, new_calls w (snd (addComment E id (Some Sample.long_text) w))
                  = CEnsureValidToken :: cs)
      /\ (exists cs, new_calls w (snd (replyComment E id (Some Sample.long_text) w))
                     = CEnsureValidToken :: cs)).
Proof.
  intros E w id.
  destruct (comment_text_validation E id (Some (js "   ")) w) as [Hblank _].
  destruct (comment_text_validation E id (Some (33%N :: Sample.long_text)) w)
    as [_ [Hlong _]].
  destruct (comment_text_validation E id (Some Sample.long_text) w)
    as [_ [_ [_ Hpass]]].
  refine (conj (Hblank _)
            (conj (proj2 (proj2 (Hlong _ eq_refl _)) _) (Hpass _ eq_refl _ _))).
  - right. exists (js "   "). split; reflexivity.
  - vm_compute. reflexivity.
  - vm_compute. reflexivity.
  - vm_compute. reflexivity.
  - vm_compute. reflexivity.
Defined.

(** ** C5: what a platform failure is answered with *)

(** A platform failure in the comment or the reply handler never reaches
    the client as a classified response: the catch block reads [text],
    which is not in scope there, and the error escapes the handler before
    anything is logged or sent. *)
Lemma comment_handlers_failure_escapes
    (E : env) (w w1 : world) (id s : jsstring) (error : js_error) :
  ensureValidToken E w = (Val true, w1) ->
  whitespace_only s = false ->
  strlen s <= 10000 ->
  (videos_list E (js "snippet,status") id = Thrown error ->
   addComment E id (Some s) w =
     (Thrown {| code := None; message := js "text is not defined" |},
      noted (CVideosList (js "snippet,status") id) w1))
  /\ (comments_insert E id (trim s) = Thrown error ->
      replyComment E id (Some s) w =
        (Thrown {| code := None; message := js "text is not defined" |},
         noted (CCommentsInsert id (trim s)) w1)).
Proof.
  intros He Hs Hlen.
  assert (Hlong : text_too_long (Some s) = false).
  { unfold text_too_long. apply Z.ltb_ge. exact Hlen. }
  split; intros Hfail; unfold_handlers;
    rewrite text_required_Some, Hs, Hlong, He; simpl;
    rewrite Hfail; simpl; split_classify; reflexivity.
Qed.

Lemma classify_delete_status (error : js_error) :
  fst (classify_delete error) = status_of_code error.
Proof.
  unfold classify_delete, status_of_code.
  repeat match goal with |- context [if ?b then _ else _] => destruct b end;
    reflexivity.
Qed.

(** C5, as stated, does not hold: when the platform fails the video
    lookup with status 401, GET /api/video/:id answers 500, and the body
    has no [details] field. *)
Lemma getVideo_platform_401_answers_500 :
  let error := Sample.err 401 "Invalid Credentials" in
  let E := Sample.env_failing error in
  let w := Sample.world_with Sample.valid in
  exists r w',
    getVideo E (js "dQw4w9WgXcQ") w = (Val r, w')
    /\ status r = 500
    /\ has_field "details" r = false
    /\ ~ spec_classified error r.
Proof.
  intros error E w. eexists. eexists.
  split; [vm_compute; reflexivity|].
  split; [reflexivity|]. split; [reflexivity|].
  intros [H _]. specialize (H eq_refl). discriminate H.
Qed.

(** C5 (amended): with a valid token and a working store, a platform
    failure of DELETE /api/comment/:id is classified by its reported
    status code (400 to 400, 401 to 401, 403 to 403, 404 to 404, anything
    else to 500) and answered with a body of the three fields [error],
    [message] and [details]; a platform failure of GET or PUT
    /api/video/:id is answered 500 whatever its code, with a body of the
    two fields [error] and [message]; each time an error-tagged log entry
    with the error message is appended. *)
Theorem platform_failure_answer
    (E : env) (w w1 : world) (id : jsstring)
    (title' description' : option jsstring) (error : js_error) :
  ensureValidToken E w = (Val true, w1) ->
  store_fault E = None ->
  (comments_delete E id = Thrown error ->
   deleteComment E id w =
     (Val (res_status_json (status_of_code error)
             [("error"%string, js "Delete failed");
              ("message"%string, snd (classify_delete error));
              ("details"%string, message error)]),
      logged (error_log E "DELETE_COMMENT_ERROR" "commentId" id error)
        (noted (CCommentsDelete id) w1)))
  /\ (videos_list E (js "snippet,statistics") id = Thrown error ->
      getVideo E id w =
        (Val (res_status_json 500
                [("error"%string, js "Failed to fetch video");
                 ("message"%string, message error)]),
         logged (error_log E "FETCH_VIDEO_ERROR" "videoId" id error)
           (noted (CVideosList (js "snippet,statistics") id) w1)))
  /\ (truthy_str title' = true \/ truthy_str description' = true ->
      (videos_list E (js "snippet") id = Thrown error ->
       putVideo E id title' description' w =
         (Val (res_status_json 500
                 [("error"%string, js "Failed to update video");
                  ("message"%string, message error)]),
          logged (error_log E "UPDATE_VIDEO_ERROR" "videoId" id error)
            (noted (CVideosList (js "snippet") id) w1)))
      /\ (forall items v,
           videos_list E (js "snippet") id = Val items ->
           first_item items = Some v ->
           videos_update E id
             (merged_snippet title' description' (video_snippet v))
           = Thrown error ->
           putVideo E id title' description' w =
             (Val (res_status_json 500
                     [("error"%string, js "Failed to update video");
                      ("message"%string, message error)]),
              logged (error_log E "UPDATE_VIDEO_ERROR" "videoId" id error)
                (noted (CVideosUpdate id
                          (merged_snippet title' description' (video_snippet v)))
                   (noted (CVideosList (js "snippet") id) w1))))).
Proof.
  intros Htok Hstore.
  refine (conj _ (conj _ _)).
  - intros Hdel. unfold_handlers. rewrite Htok. simpl.
    rewrite Hdel. simpl. rewrite <- classify_delete_status.
    destruct (classify_delete error) as [st msg]. simpl.
    rewrite Hstore. reflexivity.
  - intros Hlist. unfold_handlers. rewrite Htok. simpl.
    rewrite Hlist. simpl.
    rewrite Hstore. reflexivity.
  - intros Hv.
    assert (Hb : negb (truthy_str title') && negb (truthy_str description') = false).
    { destruct Hv as [-> | ->]; simpl; auto using andb_false_r. }
    split.
    + intros Hlist. unfold_handlers. rewrite Hb, Htok. simpl.
      rewrite Hlist. simpl. rewrite Hstore. reflexivity.
    + intros items v Hlist Hfirst Hupd. unfold_handlers. rewrite Hb, Htok. simpl.
      rewrite Hlist. simpl. rewrite Hfirst. simpl.
      unfold merged_snippet in Hupd. rewrite Hupd. simpl.
      rewrite Hstore. reflexivity.
Qed.

Lemma platform_failure_answer_witness :
  let error := Sample.err 404 "commentNotFound" in
  let E := Sample.env_failing error in
  let w := Sample.world_with Sample.valid in
  let w1 := noted CEnsureValidToken w in
  let id := js "Ugx1" in
  deleteComment E id w =
    (Val (res_status_json 404
            [("error"%string, js "Delete failed");
             ("message"%string, js "Comment not found.");
             ("details"%string, js "commentNotFound")]),
     logged (error_log E "DELETE_COMMENT_ERROR" "commentId" id error)
       (noted (CCommentsDelete id) w1))
  /\ getVideo E id w =
       (Val (res_status_json 500
               [("error"%string, js "Failed to fetch video");
                ("message"%string, js "commentNotFound")]),
        logged (error_log E "FETCH_VIDEO_ERROR" "videoId" id error)
          (noted (CVideosList (js "snippet,statistics") id) w1))
  /\ putVideo E id (Some (js "New title")) None w =
       (Val (res_status_json 500
               [("error"%string, js "Failed to update video");
                ("message"%string, js "commentNotFound")]),
        logged (error_log E "UPDATE_VIDEO_ERROR" "videoId" id error)
          (noted (CVideosList (js "snippet") id) w1)).
Proof.
  intros error E w w1 id.
  destruct (platform_failure_answer E w w1 id (Some (js "New title")) None error
              eq_refl eq_refl) as [Hdel [Hget Hput]].
  refine (conj (Hdel eq_refl) (conj (Hget eq_refl) (proj1 (Hput _) eq_refl))).
  left. reflexivity.
Defined.

(** ** C6: existence checks *)

Lemma new_calls_refl (w : world) : new_calls w w = [].
Proof. unfold new_calls. apply skipn_all. Qed.

Lemma reads_before_mutating_token_prefix (cs rest : list call) :
  forallb is_token_manager_call cs = true ->
  reads_before_mutating (cs ++ rest) = reads_before_mutating rest.
Proof.
  induction cs as [|c cs IH]; simpl; [reflexivity|].
  rewrite andb_true_iff. intros [Hc Hcs].
  rewrite (IH Hcs). destruct c; simpl in *; try discriminate; reflexivity.
Qed.

Lemma reads_before_mutating_after_token
    (E : env) (w w1 w2 : world) (r : result bool) (rest : list call) :
  ensureValidToken E w = (r, w1) ->
  calls w2 = calls w1 ++ rest ->
  reads_before_mutating rest = true ->
  reads_before_mutating (new_calls w w2) = true.
Proof.
  intros He H2 Hrest.
  destruct (ensureValidToken_frame E w w1 r He) as [_ [_ [_ [cs [Hc Htm]]]]].
  rewrite (new_calls_app w w2 ((CEnsureValidToken :: cs) ++ rest)).
  - rewrite reads_before_mutating_token_prefix; [exact Hrest|].
    simpl. exact Htm.
  - rewrite H2, Hc, <- app_assoc. reflexivity.
Qed.

Lemma code_404_status (error : js_error) :
  code_is error 404 = true -> status_of_code error = 404.
Proof.
  unfold status_of_code, code_is.
  destruct (code error) as [c|]; [|discriminate].
  rewrite Z.eqb_eq. intros ->. reflexivity.
Qed.

(** C6, as stated, does not hold: DELETE /api/comment/:id with a valid
    token issues the deletion and nothing else; no read call precedes the
    mutating call. *)
Lemma deleteComment_issues_no_read :
  let E := Sample.env_ok in
  let w := Sample.world_with Sample.valid in
  new_calls w (snd (deleteComment E (js "Ugx1") w))
  = [CEnsureValidToken; CCommentsDelete (js "Ugx1")]
  /\ reads_before_mutating (new_calls w (snd (deleteComment E (js "Ugx1") w)))
     = false.
Proof. split; vm_compute; reflexivity. Qed.

Ltac after_token He :=
  eapply (reads_before_mutating_after_token _ _ _ _ _ _ He);
  [ first [ apply eq_sym, app_nil_r
          | simpl; rewrite <- ?app_assoc; reflexivity ]
  | reflexivity ].

(** C6 (amended): the video lookup, the video update and the comment
    handler issue a [videos.list] read before any mutating call, and
    answer 404 when it reports no video (issuing no further call); the
    reply and the delete handler issue no read call, only the mutating
    call itself, and the delete handler answers 404 when the platform
    fails the deletion with status 404. *)
Theorem existence_checks
    (E : env) (w : world) (id : jsstring)
    (title' description' text : option jsstring) :
  (reads_before_mutating (new_calls w (snd (getVideo E id w))) = true
   /\ reads_before_mutating
        (new_calls w (snd (putVideo E id title' description' w))) = true
   /\ reads_before_mutating (new_calls w (snd (addComment E id text w))) = true)
  /\ (forall w1 items,
       ensureValidToken E w = (Val true, w1) ->
       first_item items = None ->
       (videos_list E (js "snippet,statistics") id = Val items ->
        getVideo E id w =
          (Val video_not_found,
           noted (CVideosList (js "snippet,statistics") id) w1))
       /\ (truthy_str title' = true \/ truthy_str description' = true ->
           videos_list E (js "snippet") id = Val items ->
           putVideo E id title' description' w =
             (Val video_not_found, noted (CVideosList (js "snippet") id) w1))
       /\ (text_required text = false -> text_too_long text = false ->
           videos_list E (js "snippet,status") id = Val items ->
           addComment E id text w =
             (Val video_not_found,
              noted (CVideosList (js "snippet,status") id) w1)))
  /\ status video_not_found = 404
  /\ (forall w1,
       ensureValidToken E w = (Val true, w1) ->
       new_calls w1 (snd (deleteComment E id w)) = [CCommentsDelete id]
       /\ (text_required text = false -> text_too_long text = false ->
           new_calls w1 (snd (replyComment E id text w))
           = [CCommentsInsert id (text_trim text)])
       /\ (forall error,
            store_fault E = None ->
            comments_delete E id = Thrown error ->
            code_is error 404 = true ->
            exists r w', deleteComment E id w = (Val r, w') /\ status r = 404)).
Proof.
  refine (conj (conj _ (conj _ _)) (conj _ (conj eq_refl _))).
  - destruct (ensureValidToken E w) as [r w1] eqn:He.
    destruct (ensureValidToken_frame E w w1 r He) as [[b ->] _].
    unfold_handlers. rewrite He.
    destruct b; simpl; [|after_token He].
    destruct (videos_list E _ id) as [items|e]; simpl;
      [destruct (first_item items); simpl|];
      destruct (store_fault E); simpl; after_token He.
  - destruct (ensureValidToken E w) as [r w1] eqn:He.
    destruct (ensureValidToken_frame E w w1 r He) as [[b ->] _].
    unfold_handlers.
    destruct (negb (truthy_str title') && negb (truthy_str description'));
      [simpl; rewrite new_calls_refl; reflexivity|].
    rewrite He.
    destruct b; simpl; [|after_token He].
    destruct (videos_list E _ id) as [items|e]; simpl;
      [destruct (first_item items); simpl;
       [destruct (videos_update E id _); simpl|]|];
      destruct (store_fault E); simpl; after_token He.
  - destruct (ensureValidToken E w) as [r w1] eqn:He.
    destruct (ensureValidToken_frame E w w1 r He) as [[b ->] _].
    unfold_handlers.
    destruct (text_required text);
      [simpl; rewrite new_calls_refl; reflexivity|].
    destruct (text_too_long text);
      [simpl; rewrite new_calls_refl; reflexivity|].
    rewrite He.
    destruct b; simpl; [|after_token He].
    destruct (videos_list E _ id) as [items|e]; simpl;
      [destruct (first_item items); simpl;
       [destruct (commentThreads_insert E id _) as [d|e]; simpl;
        [destruct (store_fault E) as [e|]; simpl|]|]|];
      try destruct (classify_addComment e); simpl; after_token He.
  - intros w1 items He Hnone.
    refine (conj _ (conj _ _)).
    + intros Hlist. unfold_handlers. rewrite He. simpl.
      rewrite Hlist. simpl. rewrite Hnone. reflexivity.
    + intros Hv Hlist.
      assert (Hb : negb (truthy_str title') && negb (truthy_str description') = false).
      { destruct Hv as [-> | ->]; simpl; auto using andb_false_r. }
      unfold_handlers. rewrite Hb, He. simpl.
      rewrite Hlist. simpl. rewrite Hnone. reflexivity.
    + intros Hreq Hlong Hlist. unfold_handlers. rewrite Hreq, Hlong, He. simpl.
      rewrite Hlist. simpl. rewrite Hnone. reflexivity.
  - intros w1 He. refine (conj _ (conj _ _)).
    + unfold_handlers. rewrite He. simpl.
      destruct (comments_delete E id) as [[]|e]; simpl;
        destruct (store_fault E); simpl; split_classify; simpl;
        apply new_calls_app; reflexivity.
    + intros Hreq Hlong. unfold_handlers. rewrite Hreq, Hlong, He. simpl.
      destruct (comments_insert E id _) as [d|e]; simpl;
        [destruct (store_fault E) as [e|]; simpl|];
        split_classify; simpl;
        apply new_calls_app; reflexivity.
    + intros error Hstore Hdel H404. unfold_handlers. rewrite He. simpl.
      rewrite Hdel. simpl.
      pose proof (classify_delete_status error) as Hst.
      destruct (classify_delete error) as [st msg]. simpl in *.
      rewrite Hstore. simpl. eexists. eexists. split; [reflexivity|].
      simpl. rewrite Hst. apply code_404_status, H404.
Qed.

Lemma existence_checks_witness :
  let w := Sample.world_with Sample.valid in
  let w1 := noted CEnsureValidToken w in
  let id := js "dQw4w9WgXcQ" in
  (getVideo Sample.env_no_video id w =
     (Val video_not_found, noted (CVideosList (js "snippet,statistics") id) w1)
   /\ putVideo Sample.env_no_video id (Some (js "New title")) None w =
        (Val video_not_found, noted (CVideosList (js "snippet") id) w1)
   /\ addComment Sample.env_no_video id (Some (js "Nice video")) w =
        (Val video_not_found, noted (CVideosList (js "snippet,status") id) w1))
  /\ new_calls w1 (snd (replyComment Sample.env_ok id (Some (js " Thanks ")) w))
     = [CCommentsInsert id (js "Thanks")]
  /\ exists r w',
       deleteComment (Sample.env_failing (Sample.err 404 "commentNotFound")) id w
       = (Val r, w')
       /\ status r = 404.
Proof.
  intros w w1 id.
  destruct (existence_checks Sample.env_no_video w id
              (Some (js "New title")) None (Some (js "Nice video")))
    as [_ [H404 _]].
  destruct (H404 w1 (Some []) eq_refl eq_refl) as [Hget [Hput Hadd]].
  destruct (existence_checks Sample.env_ok w id None None (Some (js " Thanks ")))
    as [_ [_ [_ Hreply]]].
  destruct (existence_checks (Sample.env_failing (Sample.err 404 "commentNotFound"))
              w id None None None) as [_ [_ [_ Hdel]]].
  refine (conj (conj (Hget eq_refl) (conj (Hput _ eq_refl) (Hadd eq_refl eq_refl eq_refl)))
            (conj (proj1 (proj2 (Hreply w1 eq_refl)) eq_refl eq_refl)
               (proj2 (proj2 (Hdel w1 eq_refl)) _ eq_refl eq_refl eq_refl))).
  left. reflexivity.
Defined.

(** ** C7: searching the notes *)

Lemma startsWith_iff (s prefix : jsstring) :
  startsWith s prefix = true <-> exists post, s = prefix ++ post.
Proof.
  revert s. induction prefix as [|p prefix IH]; intros s; simpl.
  - split; [intros _; exists s; reflexivity | reflexivity].
  - destruct s as [|c s].
    + split; [discriminate | intros [post H]; discriminate].
    + rewrite andb_true_iff, N.eqb_eq, IH. split.
      * intros [-> [post ->]]. exists post. reflexivity.
      * intros [post H]. injection H as -> ->. split; [reflexivity|].
        exists post. reflexivity.
Qed.

Lemma includes_iff (s needle : jsstring) :
  includes s needle = true <-> exists pre post, s = pre ++ needle ++ post.
Proof.
  induction s as [|c s IH]; simpl.
  - rewrite orb_false_r, startsWith_iff. split.
    + intros [post H]. exists [], post. exact H.
    + intros [pre [post H]]. destruct pre; [exists post; exact H|discriminate].
  - rewrite orb_true_iff, startsWith_iff, IH. split.
    + intros [[post H] | [pre [post H]]].
      * exists [], post. exact H.
      * exists (c :: pre), post. rewrite H. reflexivity.
    + intros [[|d pre] [post H]].
      * left. exists post. exact H.
      * right. injection H as _ H. exists pre, post. exact H.
Qed.

Lemma includes_ci_iff (t q : jsstring) :
  includes_ci t q = true <-> contains_ci t q.
Proof. apply includes_iff. Qed.

Lemma plain_char_ordinary (c : code_unit) :
  Regex.is_meta c = false ->
  (c =? 92)%N = false /\ (c =? 46)%N = false /\ (c =? 42)%N = false.
Proof.
  intros H. repeat split; apply N.eqb_neq; intros ->;
    vm_compute in H; discriminate.
Qed.

Lemma lex_plain (q : jsstring) :
  plain_query q = true ->
  Regex.lex q = Some (map (fun c => Regex.TAtom (Regex.Lit c)) q).
Proof.
  unfold plain_query.
  induction q as [|c q IH]; simpl; [reflexivity|].
  rewrite andb_true_iff, negb_true_iff. intros [Hc Hq].
  destruct (plain_char_ordinary c Hc) as [-> [-> ->]].
  rewrite Hc, (IH Hq). reflexivity.
Qed.

Lemma group_literals (q : jsstring) :
  Regex.group (map (fun c => Regex.TAtom (Regex.Lit c)) q)
  = Some (map (fun c => Regex.One (Regex.Lit c)) q).
Proof.
  induction q as [|c q IH]; [reflexivity|].
  destruct q as [|d q]; [reflexivity|].
  simpl in *. rewrite IH. reflexivity.
Qed.

(** A query without metacharacters is the pattern of its own letters. *)
Lemma parse_plain (q : jsstring) :
  plain_query q = true ->
  Regex.parse q = Some (map (fun c => Regex.One (Regex.Lit c)) q).
Proof.
  intros H. unfold Regex.parse. rewrite (lex_plain q H). apply group_literals.
Qed.

Lemma match_here_literals (E : env) (q s : jsstring) :
  Regex.match_here (regex_caseless E) (map (fun c => Regex.One (Regex.Lit c)) q) s
  = starts_caseless E s q.
Proof.
  revert s. induction q as [|l q IH]; intros s; [reflexivity|].
  destruct s as [|c s]; [reflexivity|].
  simpl. rewrite IH. reflexivity.
Qed.

Lemma search_literals (E : env) (q s : jsstring) :
  Regex.search (regex_caseless E) (map (fun c => Regex.One (Regex.Lit c)) q) s
  = includes_caseless E s q.
Proof.
  induction s as [|c s IH]; simpl.
  - rewrite match_here_literals. reflexivity.
  - rewrite IH, match_here_literals. reflexivity.
Qed.

(** A query without metacharacters is tested as the search for its own
    letters. *)
Lemma regex_test_plain (E : env) (q : jsstring) :
  plain_query q = true ->
  regex_test E q
  = Val (Regex.search (regex_caseless E)
           (map (fun c => Regex.One (Regex.Lit c)) q)).
Proof. intros H. unfold regex_test. rewrite (parse_plain q H). reflexivity. Qed.



(** What occurs in a text up to the case of A-Z occurs in it for the
    engine. *)
Lemma includes_ci_caseless (E : env) (t q : jsstring) :
  includes_ci t q = true -> includes_caseless E t q = true.
Proof.
  unfold includes_ci.
  assert (Hstart : forall s p,
            startsWith (map fold_case s) (map fold_case p) = true ->
            starts_caseless E s p = true).
  { intros s p. revert s. induction p as [|a p IH]; intros s; [reflexivity|].
    destruct s as [|c s]; simpl; [discriminate|].
    rewrite !andb_true_iff. intros [Hc Hs]. split; [|apply IH, Hs].
    unfold Regex.same_letter. rewrite Hc. reflexivity. }
  induction t as [|c t IH]; simpl.
  - rewrite !orb_false_r. exact (Hstart [] q).
  - rewrite !orb_true_iff.
    intros [H | H]; [left; exact (Hstart (c :: t) q H)|right; auto].
Qed.

(** The engine's test looks at the letters of the query up to the case
    of A-Z only. *)
Lemma includes_caseless_fold (E : env) (t q q' : jsstring) :
  map fold_case q = map fold_case q' ->
  includes_caseless E t q = includes_caseless E t q'.
Proof.
  intros Hfold.
  assert (Hstart : forall s, starts_caseless E s q = starts_caseless E s q').
  { revert q' Hfold. induction q as [|a q IH]; intros [|a' q'] Hfold s;
      try discriminate; [reflexivity|].
    simpl in Hfold. injection Hfold as Ha Hq.
    destruct s as [|c s]; [reflexivity|]. simpl.
    unfold Regex.same_letter. rewrite Ha, (IH q' Hq). reflexivity. }
  induction t as [|c t IH]; simpl; rewrite Hstart; [|rewrite IH]; reflexivity.
Qed.




Example search_is_caseless :
  Regex.parse (js "foo") = Some [Regex.One (Regex.Lit 102%N);
                                 Regex.One (Regex.Lit 111%N);
                                 Regex.One (Regex.Lit 111%N)]
  /\ includes_caseless Sample.env_ok (js "Intro FOOtage") (js "foo") = true
  /\ includes_caseless Sample.env_ok (js "outro") (js "foo") = false
  /\ includes_caseless Sample.env_ok [201%N; 116%N; 233%N] [233%N; 116%N; 201%N]
     = true.
Proof. repeat split. Qed.

(** With an engine that pairs accented capitals with their lower case,
    the query "é" finds the note "É". *)
Example accented_query_is_found :
  let w := {| creds := Sample.valid;
              notes := [{| note_videoId := None; note_text := Some [201%N];
                           note_tags := [] |};
                        Sample.a_note "outro"];
              logs := []; calls := [] |} in
  listNotes Sample.env_ok (Some [233%N]) w
  = (Val (res_json (BNotes [{| note_videoId := None; note_text := Some [201%N];
                               note_tags := [] |}])), w).
Proof. reflexivity. Qed.

Example search_star_and_escape :
  let found (q t : string) :=
    option_map (fun p => Regex.search Sample.latin1_caseless p (js t))
      (Regex.parse (js q)) in
  found "ta.*1"%string "take 12"%string = Some true
  /\ found "a\.c"%string "abc"%string = Some false
  /\ found "a\.c"%string "a.c"%string = Some true
  /\ Regex.parse (js "(a|b)") = None.
Proof. repeat split. Qed.

(** ** C8: the log listing *)

Lemma insert_desc_perm (e : log_entry) (l : list log_entry) :
  Permutation (insert_desc e l) (e :: l).
Proof.
  induction l as [|x l IH]; simpl; [reflexivity|].
  destruct (createdAt x <=? createdAt e); [reflexivity|].
  rewrite IH. apply perm_swap.
Qed.

Lemma sort_createdAt_desc_perm (l : list log_entry) :
  Permutation (sort_createdAt_desc l) l.
Proof.
  induction l as [|e l IH]; simpl; [reflexivity|].
  rewrite insert_desc_perm, IH. reflexivity.
Qed.

Lemma insert_desc_newest_first (e : log_entry) (l : list log_entry) :
  newest_first l -> newest_first (insert_desc e l).
Proof.
  unfold newest_first.
  induction l as [|x l IH]; simpl; intros Hs.
  - constructor; constructor.
  - apply StronglySorted_inv in Hs. destruct Hs as [Hl Hx].
    destruct (createdAt x <=? createdAt e) eqn:Hle.
    + apply Z.leb_le in Hle. constructor; [constructor; assumption|].
      constructor; [exact Hle|].
      rewrite Forall_forall in *. intros y Hy. specialize (Hx y Hy). lia.
    + apply Z.leb_gt in Hle. constructor; [apply IH, Hl|].
      rewrite Forall_forall in *. intros y Hy.
      apply (Permutation_in _ (insert_desc_perm e l)) in Hy.
      destruct Hy as [<- | Hy]; [lia | apply Hx, Hy].
Qed.

Lemma sort_createdAt_desc_newest_first (l : list log_entry) :
  newest_first (sort_createdAt_desc l).
Proof.
  induction l as [|e l IH]; simpl.
  - constructor.
  - apply insert_desc_newest_first, IH.
Qed.

(** A newest-first listing of entries with distinct times is unique. *)
Lemma newest_first_unique (l1 l2 : list log_entry) :
  newest_first l1 ->
  StronglySorted (fun a b => createdAt b < createdAt a) l2 ->
  Permutation l1 l2 ->
  l1 = l2.
Proof.
  unfold newest_first. revert l2.
  induction l1 as [|a l1 IH]; intros l2 H1 H2 Hp.
  - apply Permutation_nil in Hp. auto.
  - destruct l2 as [|b l2].
    + apply Permutation_sym, Permutation_nil in Hp. discriminate.
    + apply StronglySorted_inv in H1. destruct H1 as [H1 Ha].
      apply StronglySorted_inv in H2. destruct H2 as [H2 Hb].
      rewrite Forall_forall in Ha, Hb.
      assert (Hab : a = b).
      { assert (Hin : In a (b :: l2))
          by (apply (Permutation_in _ Hp); left; reflexivity).
        destruct Hin as [Heq | Hin]; [auto|].
        assert (Hin' : In b (a :: l1))
          by (apply (Permutation_in _ (Permutation_sym Hp)); left; reflexivity).
        specialize (Hb a Hin).
        destruct Hin' as [Heq | Hin']; [auto|].
        specialize (Ha b Hin'). lia. }
      subst b. f_equal. apply IH; auto.
      apply Permutation_cons_inv in Hp. exact Hp.
Qed.

(** C8: while the store answers, GET /api/logs returns all the log
    entries, sorted by creation time descending; when the entries were
    created at three times t1 < t2 < t3, the response lists them in the
    order [t3, t2, t1], whatever their order in the store. *)
Theorem getLogs_newest_first (E : env) (w : world) :
  store_fault E = None ->
  exists ls,
    getLogs E w = (Val (res_json (BLogs ls)), w)
    /\ Permutation ls (logs w)
    /\ newest_first ls
    /\ forall e1 e2 e3,
         createdAt e1 < createdAt e2 -> createdAt e2 < createdAt e3 ->
         Permutation (logs w) [e1; e2; e3] ->
         ls = [e3; e2; e1].
Proof.
  intros Hstore. exists (sort_createdAt_desc (logs w)).
  refine (conj _ (conj (sort_createdAt_desc_perm _)
                    (conj (sort_createdAt_desc_newest_first _) _))).
  - unfold_handlers. rewrite Hstore. reflexivity.
  - intros e1 e2 e3 H12 H23 Hp.
    apply newest_first_unique.
    + apply sort_createdAt_desc_newest_first.
    + repeat constructor; simpl; lia.
    + rewrite sort_createdAt_desc_perm, Hp.
      apply (Permutation_rev [e1; e2; e3]).
Qed.

Lemma getLogs_newest_first_witness :
  let e1 := Sample.a_log "FETCH_VIDEO" 10 in
  let e2 := Sample.a_log "ADD_COMMENT" 20 in
  let e3 := Sample.a_log "DELETE_COMMENT" 30 in
  let w := {| creds := Sample.valid; notes := []; logs := [e1; e2; e3];
              calls := [] |} in
  getLogs Sample.env_ok w = (Val (res_json (BLogs [e3; e2; e1])), w).
Proof.
  intros e1 e2 e3 w.
  destruct (getLogs_newest_first Sample.env_ok w eq_refl)
    as [ls [Hrun [_ [_ H3]]]].
  rewrite Hrun. rewrite (H3 e1 e2 e3); [reflexivity| | |].
  - simpl. lia.
  - simpl. lia.
  - apply Permutation_refl.
Defined.

(** ** C9: updating the video metadata *)

Lemma or_else_unsupplied (a b : option jsstring) :
  a = None \/ a = Some [] -> or_else a b = b.
Proof. intros [-> | ->]; reflexivity. Qed.

Lemma or_else_supplied (c : code_unit) (t : jsstring) (b : option jsstring) :
  or_else (Some (c :: t)) b = Some (c :: t).
Proof. reflexivity. Qed.

(** C9: PUT /api/video/:id answers 400, calling nothing, when neither a
    title nor a description is supplied (absent or empty alike).
    Otherwise, with a valid token and the video found, the snippet it
    sends to the platform is the existing snippet with the supplied
    fields replaced: a field that is absent or the empty string keeps the
    existing value, and so does every other field of the snippet; when
    the update succeeds the platform's answer is returned. *)
Theorem putVideo_requires_field_and_merges
    (E : env) (w : world) (id : jsstring) (title' description' : option jsstring) :
  ((title' = None \/ title' = Some []) ->
   (description' = None \/ description' = Some []) ->
   putVideo E id title' description' w
   = (Val (invalid_input "Title or description is required"), w)
   /\ status (invalid_input "Title or description is required") = 400)
  /\ (forall w1 items v,
       truthy_str title' = true \/ truthy_str description' = true ->
       ensureValidToken E w = (Val true, w1) ->
       videos_list E (js "snippet") id = Val items ->
       first_item items = Some v ->
       let current := video_snippet v in
       let sent := merged_snippet title' description' current in
       new_calls w1 (snd (putVideo E id title' description' w))
       = [CVideosList (js "snippet") id; CVideosUpdate id sent]
       /\ (forall data,
            videos_update E id sent = Val data ->
            store_fault E = None ->
            fst (putVideo E id title' description' w) = Val (res_json (BJson data)))
       /\ (title' = None \/ title' = Some [] -> title sent = title current)
       /\ (forall c t, title' = Some (c :: t) -> title sent = title')
       /\ (description' = None \/ description' = Some [] ->
           description sent = description current)
       /\ (forall c t, description' = Some (c :: t) ->
           description sent = description')
       /\ snippet_rest sent = snippet_rest current).
Proof.
  split.
  - intros Ht Hd. split; [|reflexivity].
    unfold_handlers. destruct Ht as [-> | ->], Hd as [-> | ->]; reflexivity.
  - intros w1 items v Hv He Hlist Hfirst current sent.
    assert (Hb : negb (truthy_str title') && negb (truthy_str description') = false).
    { destruct Hv as [-> | ->]; simpl; auto using andb_false_r. }
    refine (conj _ (conj _ (conj _ (conj _ (conj _ (conj _ eq_refl)))))).
    + unfold_handlers. rewrite Hb, He. simpl. rewrite Hlist. simpl.
      rewrite Hfirst. simpl. fold current. fold (merged_snippet title' description' current).
      fold sent.
      destruct (videos_update E id sent); simpl;
        destruct (store_fault E); simpl;
        apply new_calls_app; simpl; rewrite <- app_assoc; reflexivity.
    + intros data Hupd Hstore.
      unfold_handlers. rewrite Hb, He. simpl. rewrite Hlist. simpl.
      rewrite Hfirst. simpl. fold current. fold (merged_snippet title' description' current).
      fold sent. rewrite Hupd. simpl. rewrite Hstore. reflexivity.
    + intros H. apply or_else_unsupplied, H.
    + intros c t ->. reflexivity.
    + intros H. apply or_else_unsupplied, H.
    + intros c t ->. reflexivity.
Qed.

Lemma putVideo_requires_field_and_merges_witness :
  let E := Sample.env_ok in
  let w := Sample.world_with Sample.valid in
  let w1 := noted CEnsureValidToken w in
  let id := js "dQw4w9WgXcQ" in
  putVideo E id None (Some []) w
  = (Val (invalid_input "Title or description is required"), w)
  /\ new_calls w1 (snd (putVideo E id (Some (js "New title")) (Some []) w))
     = [CVideosList (js "snippet") id;
        CVideosUpdate id
          {| title := Some (js "New title");
             description := Some (js "Old description");
             snippet_rest := [("categoryId"%string, js "22")] |}]
  /\ fst (putVideo E id (Some (js "New title")) (Some []) w)
     = Val (res_json (BJson (js "{updated}"))).
Proof.
  intros E w w1 id.
  destruct (putVideo_requires_field_and_merges E w id None (Some [])) as [H400 _].
  destruct (putVideo_requires_field_and_merges E w id (Some (js "New title")) (Some []))
    as [_ Hmerge].
  destruct (Hmerge w1 (Some [Sample.a_video]) Sample.a_video
              (or_introl eq_refl) eq_refl eq_refl eq_refl)
    as [Hcalls [Hok _]].
  refine (conj (proj1 (H400 _ _)) (conj Hcalls (Hok _ eq_refl eq_refl))).
  - left. reflexivity.
  - right. reflexivity.
Defined.

(** ** C10: trimmed for the platform, untrimmed for the limit and the log *)

Lemma no_whitespace_not_blank (s : jsstring) (rest : jsstring) :
  s <> [] -> forallb (fun c => negb (is_ws c)) s = true ->
  whitespace_only (s ++ rest) = false.
Proof.
  destruct s as [|c s]; [congruence|]. intros _. unfold whitespace_only. simpl.
  rewrite andb_true_iff, negb_true_iff. intros [-> _]. reflexivity.
Qed.

(** C10: for a comment or a reply whose text passes validation (with a
    valid token and, for a comment, the video found), the text handed to
    the platform is the trimmed text, the length limit having been
    checked on the text as received, and on success the log entry records
    the text as received.  In particular a text of 10,000 non-whitespace
    characters followed by one space is answered 400 by both handlers,
    although its trimmed length is 10,000. *)
Theorem comment_text_trimmed_for_platform
    (E : env) (w : world) (id : jsstring) :
  (forall w1 s,
     ensureValidToken E w = (Val true, w1) ->
     whitespace_only s = false ->
     strlen s <= 10000 ->
     (forall items v,
        videos_list E (js "snippet,status") id = Val items ->
        first_item items = Some v ->
        new_calls w1 (snd (addComment E id (Some s) w))
        = [CVideosList (js "snippet,status") id;
           CCommentThreadsInsert id (trim s)]
        /\ forall data,
             commentThreads_insert E id (trim s) = Val data ->
             store_fault E = None ->
             addComment E id (Some s) w
             = (Val (res_json (BJson data)),
                logged (comment_log E "ADD_COMMENT" "videoId" id (Some s))
                  (noted (CCommentThreadsInsert id (trim s))
                     (noted (CVideosList (js "snippet,status") id) w1))))
     /\ new_calls w1 (snd (replyComment E id (Some s) w))
        = [CCommentsInsert id (trim s)]
     /\ forall data,
          comments_insert E id (trim s) = Val data ->
          store_fault E = None ->
          replyComment E id (Some s) w
          = (Val (res_json (BJson data)),
             logged (comment_log E "REPLY_COMMENT" "commentId" id (Some s))
               (noted (CCommentsInsert id (trim s)) w1)))
  /\ (forall s,
       strlen s = 10000 ->
       forallb (fun c => negb (is_ws c)) s = true ->
       strlen (trim (s ++ [32%N])) = 10000
       /\ addComment E id (Some (s ++ [32%N])) w
          = (Val (invalid_input "Comment text is too long (max 10000 characters)"), w)
       /\ replyComment E id (Some (s ++ [32%N])) w
          = (Val (invalid_input "Reply text is too long (max 10000 characters)"), w)).
Proof.
  split.
  - intros w1 s He Hs Hlen.
    assert (Hlong : text_too_long (Some s) = false).
    { unfold text_too_long. apply Z.ltb_ge. exact Hlen. }
    refine (conj _ (conj _ _)).
    + intros items v Hlist Hfirst. split.
      * unfold_handlers. rewrite text_required_Some, Hs, Hlong, He. simpl.
        rewrite Hlist. simpl. rewrite Hfirst. simpl.
        destruct (commentThreads_insert E id (trim s)) as [d|e]; simpl;
          [destruct (store_fault E) as [e|]; simpl|];
          split_classify; simpl;
          apply new_calls_app; simpl; rewrite <- ?app_assoc; reflexivity.
      * intros data Hins Hstore.
        unfold_handlers. rewrite text_required_Some, Hs, Hlong, He. simpl.
        rewrite Hlist. simpl. rewrite Hfirst. simpl.
        rewrite Hins. simpl. rewrite Hstore. reflexivity.
    + unfold_handlers. rewrite text_required_Some, Hs, Hlong, He. simpl.
      destruct (comments_insert E id (trim s)) as [d|e]; simpl;
        [destruct (store_fault E) as [e|]; simpl|];
        split_classify; simpl;
        apply new_calls_app; reflexivity.
    + intros data Hins Hstore.
      unfold_handlers. rewrite text_required_Some, Hs, Hlong, He. simpl.
      rewrite Hins. simpl. rewrite Hstore. reflexivity.
  - intros s Hlen Hnows.
    assert (Hne : s <> []).
    { intros ->. unfold strlen in Hlen. simpl in Hlen. lia. }
    assert (Hlong : text_too_long (Some (s ++ [32%N])) = true).
    { unfold text_too_long, strlen in *. rewrite length_app. simpl.
      apply Z.ltb_lt. lia. }
    refine (conj _ (conj _ _)).
    + rewrite (trim_trailing_space s Hnows). exact Hlen.
    + unfold_handlers.
      rewrite text_required_Some, (no_whitespace_not_blank s _ Hne Hnows), Hlong.
      reflexivity.
    + unfold_handlers.
      rewrite text_required_Some, (no_whitespace_not_blank s _ Hne Hnows), Hlong.
      reflexivity.
Qed.

Lemma comment_text_trimmed_for_platform_witness :
  let E := Sample.env_ok in
  let w := Sample.world_with Sample.valid in
  let w1 := noted CEnsureValidToken w in
  let id := js "dQw4w9WgXcQ" in
  let s := js "  Nice video " in
  addComment E id (Some s) w
  = (Val (res_json (BJson (js "{thread}"))),
     logged (comment_log E "ADD_COMMENT" "videoId" id (Some s))
       (noted (CCommentThreadsInsert id (js "Nice video"))
          (noted (CVideosList (js "snippet,status") id) w1)))
  /\ replyComment E id (Some s) w
     = (Val (res_json (BJson (js "{comment}"))),
        logged (comment_log E "REPLY_COMMENT" "commentId" id (Some s))
          (noted (CCommentsInsert id (js "Nice video")) w1))
  /\ addComment E id (Some (Sample.long_text ++ [32%N])) w
     = (Val (invalid_input "Comment text is too long (max 10000 characters)"), w).
Proof.
  intros E w w1 id s.
  destruct (comment_text_trimmed_for_platform E w id) as [Hsent Hedge].
  assert (Hlen : strlen s <= 10000) by (vm_compute; discriminate).
  destruct (Hsent w1 s eq_refl eq_refl Hlen) as [Hadd [_ Hreply]].
  destruct (Hadd (Some [Sample.a_video]) Sample.a_video eq_refl eq_refl)
    as [_ Hadd_ok].
  assert (H1 : strlen Sample.long_text = 10000) by (vm_compute; reflexivity).
  assert (H2 : forallb (fun c => negb (is_ws c)) Sample.long_text = true)
    by (vm_compute; reflexivity).
  destruct (Hedge Sample.long_text H1 H2) as [_ [Hrej _]].
  exact (conj (Hadd_ok _ eq_refl eq_refl) (conj (Hreply _ eq_refl eq_refl) Hrej)).
Defined.

(** * Further properties of the server *)

(** ** The Token Manager over several requests *)

Lemma token_stale_fresh (E : env) (c : credentials) :
  fresh_at (now E) c -> token_stale E c = false.
Proof.
  unfold fresh_at, token_stale. intros [-> He]. simpl.
  destruct He as [-> | [e [-> Hlt]]]; [reflexivity|].
  simpl. apply andb_false_iff. right. apply Z.leb_gt, Hlt.
Qed.

(** Once stale, a token state stays stale as the clock advances. *)
Lemma token_stale_later (E E' : env) (c : credentials) :
  now E <= now E' -> token_stale E c = true -> token_stale E' c = true.
Proof.
  unfold token_stale. intros Hle.
  destruct (truthy_str (access_token c)); simpl; [|reflexivity].
  destruct (expiry_date c) as [e|]; simpl; [|discriminate].
  rewrite !andb_true_iff, !Z.leb_le. intros [H1 H2]. split; [exact H1|lia].
Qed.

(** What a check that refreshes leaves behind, by the provider's answer. *)
Lemma ensureValidToken_stale (E : env) (w : world) :
  token_stale E (creds w) = true ->
  match oauth_refresh E (creds w) with
  | Val c' =>
      fst (ensureValidToken E w) = Val true
      /\ creds (snd (ensureValidToken E w)) = c'
  | Thrown _ =>
      fst (ensureValidToken E w) = Val false
      /\ creds (snd (ensureValidToken E w)) = creds w
  end.
Proof.
  intros Hs. rewrite ensureValidToken_eq, Hs, refreshAccessToken_eq. simpl.
  destruct (oauth_refresh E (creds w)); simpl; auto.
Qed.

(** X1: [ensureValidToken] answers false exactly when a refresh was
    needed and the provider call threw.  When the provider answers, the
    result is true and the Token State is the provider's answer as it
    is, whether or not that answer carries an access token. *)
Theorem ensureValidToken_false_iff (E : env) (w : world) :
  (fst (ensureValidToken E w) = Val false <->
   needs_refresh E (creds w) /\ exists e, oauth_refresh E (creds w) = Thrown e)
  /\ (forall c',
       needs_refresh E (creds w) ->
       oauth_refresh E (creds w) = Val c' ->
       fst (ensureValidToken E w) = Val true
       /\ creds (snd (ensureValidToken E w)) = c').
Proof.
  split.
  - rewrite <- token_stale_iff.
    destruct (token_stale E (creds w)) eqn:Hs.
    + pose proof (ensureValidToken_stale E w Hs) as H.
      destruct (oauth_refresh E (creds w)) as [c|e]; destruct H as [H _];
        rewrite H; split.
      * discriminate.
      * intros [_ [e He]]. discriminate.
      * eauto.
      * reflexivity.
    + rewrite ensureValidToken_eq, Hs. simpl. split; [discriminate|].
      intros [H _]. discriminate.
  - intros c' Hneed Hok. apply token_stale_iff in Hneed.
    pose proof (ensureValidToken_stale E w Hneed) as H.
    rewrite Hok in H. exact H.
Qed.

Lemma ensureValidToken_false_iff_witness :
  fst (ensureValidToken Sample.env_ok (Sample.world_with Sample.expired)) = Val true
  /\ creds (snd (ensureValidToken Sample.env_ok (Sample.world_with Sample.expired)))
     = Sample.fresh.
Proof.
  apply (proj2 (ensureValidToken_false_iff Sample.env_ok
                  (Sample.world_with Sample.expired))).
  - right. exists 500. simpl. repeat split; lia.
  - reflexivity.
Defined.

(** X2: a failed refresh changes nothing in the Token State, and the next
    check, at the same or a later time, asks the provider again: there is
    no back-off and no give-up state. *)
Theorem failed_refresh_is_retried (E E' : env) (w w1 : world) :
  ensureValidToken E w = (Val false, w1) ->
  now E <= now E' ->
  creds w1 = creds w
  /\ new_calls w1 (snd (ensureValidToken E' w1))
     = [CEnsureValidToken; CRefreshAccessToken; COAuthRefresh].
Proof.
  intros He Hle. rewrite ensureValidToken_eq in He.
  destruct (token_stale E (creds w)) eqn:Hs; [|discriminate].
  rewrite refreshAccessToken_eq in He. simpl in He.
  destruct (oauth_refresh E (creds w)); [discriminate|].
  injection He as <-. simpl. split; [reflexivity|].
  apply new_calls_app. rewrite ensureValidToken_calls. simpl.
  rewrite (token_stale_later E E' _ Hle Hs). reflexivity.
Qed.

Lemma failed_refresh_is_retried_witness :
  let w := Sample.world_with Sample.expired in
  let w1 := snd (ensureValidToken Sample.env_revoked w) in
  creds w1 = creds w
  /\ new_calls w1 (snd (ensureValidToken Sample.env_ok w1))
     = [CEnsureValidToken; CRefreshAccessToken; COAuthRefresh].
Proof.
  intros w w1.
  apply (failed_refresh_is_retried Sample.env_revoked Sample.env_ok w w1).
  - reflexivity.
  - simpl. lia.
Defined.

(** X3: after a refresh that brought a non-empty access token, later
    checks answer true without consulting the provider for as long as the
    clock is before the new expiry (or for ever, when the provider gave
    no expiry). *)
Theorem refreshed_token_is_reused (E E' : env) (w : world) (c' : credentials) :
  needs_refresh E (creds w) ->
  oauth_refresh E (creds w) = Val c' ->
  fresh_at (now E') c' ->
  let w1 := snd (ensureValidToken E w) in
  ensureValidToken E' w1 = (Val true, noted CEnsureValidToken w1).
Proof.
  intros Hneed Hok Hfresh w1.
  rewrite ensureValidToken_eq.
  apply token_stale_iff in Hneed.
  pose proof (ensureValidToken_stale E w Hneed) as H.
  rewrite Hok in H. destruct H as [_ Hc]. fold w1 in Hc.
  rewrite Hc, (token_stale_fresh E' c' Hfresh). reflexivity.
Qed.

Lemma refreshed_token_is_reused_witness :
  let w1 := snd (ensureValidToken Sample.env_ok (Sample.world_with Sample.startup)) in
  ensureValidToken Sample.env_revoked w1 = (Val true, noted CEnsureValidToken w1).
Proof.
  apply (refreshed_token_is_reused Sample.env_ok Sample.env_revoked
           (Sample.world_with Sample.startup) Sample.fresh).
  - left. left. reflexivity.
  - reflexivity.
  - split; [reflexivity|]. right. exists 7200000. simpl. split; [reflexivity|lia].
Defined.

(** ** The OAuth callback and the first request *)

(** X4: GET /oauth2callback is all or nothing.  When the exchange
    succeeds the whole Token State becomes the provider's answer (so a
    refresh token held before survives only if the answer repeats it)
    and the client is redirected to the dashboard; when it fails the
    client gets 500 and the Token State is untouched.  Either way
    nothing is logged and no call is recorded. *)
Theorem oauth2callback_all_or_nothing
    (getToken : option jsstring -> result credentials)
    (code : option jsstring) (w : world) :
  let w' := snd (oauth2callback getToken code w) in
  notes w' = notes w /\ logs w' = logs w /\ calls w' = calls w
  /\ match getToken code with
     | Val tokens =>
         fst (oauth2callback getToken code w)
         = Val (Redirect (js "http://localhost:3000/dashboard"))
         /\ creds w' = tokens
         /\ refresh_token (creds w') = refresh_token tokens
     | Thrown _ =>
         fst (oauth2callback getToken code w)
         = Val (Send 500 (js "Authentication failed"))
         /\ w' = w
     end.
Proof.
  unfold oauth2callback, try_catch, bind, lift_result, setCredentials, ret.
  destruct (getToken code); simpl; auto 10.
Qed.

(** X5: after a callback that stored a non-empty access token which has
    not run out, a video lookup passes the token check without the Token
    Manager invoking [refreshAccessToken], goes on to issue
    [videos.list], and never answers 401. *)
Theorem request_after_login
    (getToken : option jsstring -> result credentials)
    (code : option jsstring) (E : env) (w : world)
    (tokens : credentials) (id : jsstring) :
  getToken code = Val tokens ->
  fresh_at (now E) tokens ->
  let w1 := snd (oauth2callback getToken code w) in
  ensureValidToken E w1 = (Val true, noted CEnsureValidToken w1)
  /\ existsb is_refresh_call (new_calls w1 (snd (getVideo E id w1))) = false
  /\ In (CVideosList (js "snippet,statistics") id)
       (new_calls w1 (snd (getVideo E id w1)))
  /\ forall r w2, getVideo E id w1 = (Val r, w2) -> status r <> 401.
Proof.
  intros Hok Hfresh w1.
  assert (Hc : creds w1 = tokens).
  { unfold w1, oauth2callback, try_catch, bind, lift_result, setCredentials, ret.
    rewrite Hok. reflexivity. }
  assert (He : ensureValidToken E w1 = (Val true, noted CEnsureValidToken w1)).
  { rewrite ensureValidToken_eq, Hc, (token_stale_fresh E tokens Hfresh).
    reflexivity. }
  split; [exact He|].
  unfold_handlers. rewrite He. simpl.
  destruct (videos_list E _ id) as [items|e]; simpl;
    [destruct (first_item items); simpl|];
    destruct (store_fault E); simpl;
    erewrite new_calls_app
      by (simpl; rewrite <- ?app_assoc; simpl; reflexivity);
    (split; [reflexivity|]); (split; [simpl; auto|]);
    intros r w2 H; inversion H; simpl; discriminate.
Qed.

Lemma request_after_login_witness :
  let getToken := fun _ : option jsstring => Val Sample.fresh in
  let w1 := snd (oauth2callback getToken (Some (js "4/0Aabc"))
                   (Sample.world_with Sample.startup)) in
  existsb is_refresh_call
    (new_calls w1 (snd (getVideo Sample.env_revoked (js "dQw4w9WgXcQ") w1)))
  = false
  /\ In (CVideosList (js "snippet,statistics") (js "dQw4w9WgXcQ"))
       (new_calls w1 (snd (getVideo Sample.env_revoked (js "dQw4w9WgXcQ") w1))).
Proof.
  intros getToken w1.
  destruct (request_after_login getToken (Some (js "4/0Aabc")) Sample.env_revoked
              (Sample.world_with Sample.startup) Sample.fresh (js "dQw4w9WgXcQ"))
    as [_ [H1 [H2 _]]].
  - reflexivity.
  - split; [reflexivity|]. right. exists 7200000. simpl. split; [reflexivity|lia].
  - exact (conj H1 H2).
Defined.

(** X6: whatever the configuration, the server starts without an access
    token, so the first token check consults the provider, exactly once;
    it answers true when the provider answers and false when the
    provider call throws. *)
Theorem first_check_refreshes
    (E : env) (REFRESH_TOKEN : option jsstring) (w : world) :
  creds w = startup_credentials REFRESH_TOKEN ->
  new_calls w (snd (ensureValidToken E w))
  = [CEnsureValidToken; CRefreshAccessToken; COAuthRefresh]
  /\ (fst (ensureValidToken E w) = Val true <->
      exists c', oauth_refresh E (startup_credentials REFRESH_TOKEN) = Val c')
  /\ (truthy_str REFRESH_TOKEN = false -> refresh_token (creds w) = None).
Proof.
  intros Hc.
  assert (Hs : token_stale E (creds w) = true).
  { rewrite Hc. unfold startup_credentials.
    destruct (truthy_str REFRESH_TOKEN); reflexivity. }
  refine (conj _ (conj _ _)).
  - apply new_calls_app. rewrite ensureValidToken_calls, Hs. reflexivity.
  - pose proof (ensureValidToken_stale E w Hs) as H. rewrite Hc in H.
    destruct (oauth_refresh E (startup_credentials REFRESH_TOKEN)) as [c|e];
      destruct H as [-> _]; split; eauto; try discriminate.
    intros [c' H]. discriminate.
  - intros Hf. rewrite Hc. unfold startup_credentials. rewrite Hf. reflexivity.
Qed.

Lemma first_check_refreshes_witness :
  let w := Sample.world_with (startup_credentials (Some (js "1//refresh"))) in
  new_calls w (snd (ensureValidToken Sample.env_ok w))
  = [CEnsureValidToken; CRefreshAccessToken; COAuthRefresh].
Proof.
  intros w.
  apply (first_check_refreshes Sample.env_ok (Some (js "1//refresh")) w eq_refl).
Defined.

(** ** Every path of a protected handler *)

(** Runs a handler symbolically: the Token Manager by its equations, then
    a case split on every answer of the outside world. *)
Ltac all_paths :=
  unfold_handlers;
  repeat
    (simpl;
     match goal with
     | |- context [ensureValidToken ?E ?w] => rewrite (ensureValidToken_eq E w)
     | |- context [refreshAccessToken ?E ?w] => rewrite (refreshAccessToken_eq E w)
     | H : token_stale ?E ?c = _ |- context [token_stale ?E ?c] => rewrite H
     | |- context [token_stale ?E ?c] => destruct (token_stale E c) eqn:?
     | |- context [oauth_refresh ?E ?c] => destruct (oauth_refresh E c) eqn:?
     | |- context [text_required ?t] => destruct (text_required t) eqn:?
     | |- context [text_too_long ?t] => destruct (text_too_long t) eqn:?
     | |- context [negb (truthy_str ?a) && negb (truthy_str ?b)] =>
         destruct (negb (truthy_str a) && negb (truthy_str b)) eqn:?
     | |- context [videos_list ?E ?p ?i] => destruct (videos_list E p i) eqn:?
     | |- context [first_item ?x] => destruct (first_item x) eqn:?
     | |- context [videos_update ?E ?i ?s] => destruct (videos_update E i s) eqn:?
     | |- context [commentThreads_insert ?E ?i ?t] =>
         destruct (commentThreads_insert E i t) eqn:?
     | |- context [comments_insert ?E ?i ?t] =>
         destruct (comments_insert E i t) eqn:?
     | |- context [comments_delete ?E ?i] => destruct (comments_delete E i) eqn:?
     | |- context [store_fault ?E] => destruct (store_fault E) eqn:?
     | |- context [classify_addComment ?e] => destruct (classify_addComment e) eqn:?
     | |- context [classify_reply ?e] => destruct (classify_reply e) eqn:?
     | |- context [classify_delete ?e] => destruct (classify_delete e) eqn:?
     end);
  simpl.

(** The calls a run added, as an explicit list. *)
Ltac explicit_new_calls :=
  first
    [ rewrite new_calls_refl
    | erewrite new_calls_app
        by (simpl; rewrite <- ?app_assoc; simpl; reflexivity) ].


Lemma status_of_code_known (error : js_error) :
  known_status (status_of_code error) = true
  /\ status_of_code error <> 200.
Proof.
  unfold status_of_code.
  repeat match goal with |- context [if ?b then _ else _] => destruct b end;
    split; (reflexivity || discriminate).
Qed.

(** The status a catch block of the delete handler computed. *)
Ltac delete_status :=
  match goal with
  | H : classify_delete ?e = (?z, _) |- _ =>
      let Hst := fresh "Hst" in
      pose proof (classify_delete_status e) as Hst;
      rewrite H in Hst; simpl in Hst;
      destruct (status_of_code_known e); congruence
  end.

(** X8: the activity log is append-only and the notes are out of reach.
    Whatever the outside world answers, each of the five protected
    handlers leaves the notes collection as it was and the earlier log
    entries in place, appending at most one entry, stamped with the time
    of the request. *)
Theorem handlers_append_at_most_one_entry
    (E : env) (w : world) (id : jsstring)
    (title' description' text : option jsstring) :
  (notes (snd (getVideo E id w)) = notes w
   /\ appends_at_most_one E w (snd (getVideo E id w)))
  /\ (notes (snd (putVideo E id title' description' w)) = notes w
      /\ appends_at_most_one E w (snd (putVideo E id title' description' w)))
  /\ (notes (snd (addComment E id text w)) = notes w
      /\ appends_at_most_one E w (snd (addComment E id text w)))
  /\ (notes (snd (replyComment E id text w)) = notes w
      /\ appends_at_most_one E w (snd (replyComment E id text w)))
  /\ (notes (snd (deleteComment E id w)) = notes w
      /\ appends_at_most_one E w (snd (deleteComment E id w))).
Proof.
  unfold appends_at_most_one.
  refine (conj _ (conj _ (conj _ (conj _ _))));
    all_paths; (split; [reflexivity|]);
    first
      [ exists []; split; [symmetry; apply app_nil_r|];
        split; [simpl; lia | constructor]
      | eexists; split; [reflexivity|];
        split; [simpl; lia | repeat constructor] ].
Qed.

(** X9: the API answers with six statuses only.  Every response of the
    five protected handlers and of the two listing handlers, for every
    query, has status 200, 400, 401, 403, 404 or 500. *)
Theorem responses_have_known_status
    (E : env) (w : world) (id : jsstring)
    (title' description' text q : option jsstring) :
  (forall r w', getVideo E id w = (Val r, w') -> known_status (status r) = true)
  /\ (forall r w', putVideo E id title' description' w = (Val r, w') ->
      known_status (status r) = true)
  /\ (forall r w', addComment E id text w = (Val r, w') ->
      known_status (status r) = true)
  /\ (forall r w', replyComment E id text w = (Val r, w') ->
      known_status (status r) = true)
  /\ (forall r w', deleteComment E id w = (Val r, w') ->
      known_status (status r) = true)
  /\ (exists r w', listNotes E q w = (Val r, w')
                   /\ known_status (status r) = true)
  /\ (forall r w', getLogs E w = (Val r, w') -> known_status (status r) = true).
Proof.
  refine (conj _ (conj _ (conj _ (conj _ (conj _ (conj _ _))))));
    try (all_paths; intros r w' H; inversion H; subst; simpl;
         try reflexivity; delete_status).
  unfold_handlers.
  destruct q as [[|c q]|]; destruct (store_fault E); simpl;
    try destruct (regex_test E (c :: q)); simpl;
    eexists; eexists; split; reflexivity.
Qed.

Lemma responses_have_known_status_witness :
  known_status
    (status (res_status_json 404
               [("error"%string, js "Delete failed");
                ("message"%string, js "Comment not found.");
                ("details"%string, js "commentNotFound")])) = true.
Proof.
  destruct (responses_have_known_status
              (Sample.env_failing (Sample.err 404 "commentNotFound"))
              (Sample.world_with Sample.valid) (js "Ugx1") None None None None)
    as [_ [_ [_ [_ [Hdel _]]]]].
  exact (Hdel _ _ eq_refl).
Defined.

(** X10: no success goes unlogged.  When one of the five protected
    handlers answers 200, the log has grown by exactly one entry, tagged
    with the handler's own action and stamped with the time of the
    request. *)
Theorem success_is_logged
    (E : env) (w : world) (id : jsstring)
    (title' description' text : option jsstring) :
  (forall r w', getVideo E id w = (Val r, w') -> status r = 200 ->
   logged_action E "FETCH_VIDEO" w w')
  /\ (forall r w', putVideo E id title' description' w = (Val r, w') ->
      status r = 200 -> logged_action E "UPDATE_VIDEO" w w')
  /\ (forall r w', addComment E id text w = (Val r, w') -> status r = 200 ->
      logged_action E "ADD_COMMENT" w w')
  /\ (forall r w', replyComment E id text w = (Val r, w') -> status r = 200 ->
      logged_action E "REPLY_COMMENT" w w')
  /\ (forall r w', deleteComment E id w = (Val r, w') -> status r = 200 ->
      logged_action E "DELETE_COMMENT" w w').
Proof.
  unfold logged_action.
  refine (conj _ (conj _ (conj _ (conj _ _))));
    all_paths; intros r w' H H200; inversion H; subst; simpl in H200;
    try discriminate;
    try (eexists; reflexivity);
    delete_status.
Qed.

Lemma success_is_logged_witness :
  let w := Sample.world_with Sample.valid in
  logged_action Sample.env_ok "DELETE_COMMENT" w
    (snd (deleteComment Sample.env_ok (js "Ugx1") w)).
Proof.
  intros w.
  destruct (success_is_logged Sample.env_ok w (js "Ugx1") None None None)
    as [_ [_ [_ [_ Hdel]]]].
  exact (Hdel _ _ eq_refl eq_refl).
Defined.

(** ** When the document store is down *)

(** X11: with the store down and a valid token, the delete handler sends
    no response at all, whatever the platform answered: the deletion has
    been issued, but logging throws in the [try] block and again in the
    catch block, and the store's error escapes.  The same happens to a
    video update once the video was found. *)
Theorem store_down_leaves_client_unanswered
    (E : env) (w w1 : world) (id : jsstring)
    (title' description' : option jsstring) (e : js_error) :
  store_fault E = Some e ->
  ensureValidToken E w = (Val true, w1) ->
  deleteComment E id w = (Thrown e, noted (CCommentsDelete id) w1)
  /\ (forall items v,
       truthy_str title' = true \/ truthy_str description' = true ->
       videos_list E (js "snippet") id = Val items ->
       first_item items = Some v ->
       putVideo E id title' description' w
       = (Thrown e,
          noted (CVideosUpdate id
                   (merged_snippet title' description' (video_snippet v)))
            (noted (CVideosList (js "snippet") id) w1))).
Proof.
  intros Hstore He. split.
  - unfold_handlers. rewrite He. simpl.
    destruct (comments_delete E id) as [[]|err]; simpl;
      rewrite ?Hstore; simpl; split_classify; simpl;
      rewrite ?Hstore; reflexivity.
  - intros items v Hv Hlist Hfirst.
    assert (Hb : negb (truthy_str title') && negb (truthy_str description') = false).
    { destruct Hv as [-> | ->]; simpl; auto using andb_false_r. }
    unfold_handlers. rewrite Hb, He. simpl. rewrite Hlist. simpl.
    rewrite Hfirst. simpl. unfold merged_snippet.
    destruct (videos_update E id _); simpl; rewrite ?Hstore; simpl;
      rewrite ?Hstore; reflexivity.
Qed.

Lemma store_down_leaves_client_unanswered_witness :
  let e := Sample.err 0 "buffering timed out" in
  let E := {| now := 1000;
              oauth_refresh := fun _ => Val Sample.fresh;
              videos_list := fun _ _ => Val (Some [Sample.a_video]);
              videos_update := fun _ _ => Val (js "{updated}");
              commentThreads_insert := fun _ _ => Val (js "{thread}");
              comments_insert := fun _ _ => Val (js "{comment}");
              comments_delete := fun _ => Val tt;
              store_fault := Some e;
              regex_caseless := Sample.latin1_caseless;
              regex_beyond := Sample.no_pattern |} in
  let w := Sample.world_with Sample.valid in
  deleteComment E (js "Ugx1") w
  = (Thrown e, noted (CCommentsDelete (js "Ugx1")) (noted CEnsureValidToken w)).
Proof.
  intros e E w.
  apply (store_down_leaves_client_unanswered E w (noted CEnsureValidToken w)
           (js "Ugx1") None None e eq_refl eq_refl).
Defined.

(** X12: the two listing handlers and the note creation never throw, and
    the listings never change the state, whatever the query.  With the
    store down all three answer 500 with the store's error message, and
    the note is not stored. *)
Theorem store_handlers_contain_failures
    (E : env) (w : world) (q : option jsstring) (doc : note) :
  (snd (listNotes E q w) = w /\ exists r, fst (listNotes E q w) = Val r)
  /\ (snd (getLogs E w) = w /\ exists r, fst (getLogs E w) = Val r)
  /\ (exists r, fst (postNote E doc w) = Val r)
  /\ (forall e, store_fault E = Some e ->
      fst (listNotes E q w)
      = Val (res_status_json 500
               [("error"%string, js "Failed to fetch notes");
                ("message"%string, message e)])
      /\ fst (getLogs E w)
         = Val (res_status_json 500
                  [("error"%string, js "Failed to fetch logs");
                   ("message"%string, message e)])
      /\ postNote E doc w
         = (Val (inr (res_status_json 500
                        [("error"%string, js "Failed to add note");
                         ("message"%string, message e)])), w)).
Proof.
  refine (conj _ (conj _ (conj _ _))).
  - unfold_handlers.
    destruct q as [[|c q]|]; destruct (store_fault E); simpl;
      try destruct (regex_test E (c :: q)); simpl; eauto.
  - unfold_handlers. destruct (store_fault E); simpl; eauto.
  - unfold postNote, Note_create. unfold_handlers.
    destruct (store_fault E); simpl; eauto.
  - intros e Hstore. refine (conj _ (conj _ _)).
    + unfold_handlers. destruct q as [[|c q]|]; rewrite Hstore; reflexivity.
    + unfold_handlers. rewrite Hstore. reflexivity.
    + unfold postNote, Note_create. unfold_handlers. rewrite Hstore. reflexivity.
Qed.

Lemma store_handlers_contain_failures_witness :
  let e := Sample.err 0 "buffering timed out" in
  let E := {| now := 1000;
              oauth_refresh := fun _ => Val Sample.fresh;
              videos_list := fun _ _ => Val (Some [Sample.a_video]);
              videos_update := fun _ _ => Val (js "{updated}");
              commentThreads_insert := fun _ _ => Val (js "{thread}");
              comments_insert := fun _ _ => Val (js "{comment}");
              comments_delete := fun _ => Val tt;
              store_fault := Some e;
              regex_caseless := Sample.latin1_caseless;
              regex_beyond := Sample.no_pattern |} in
  let w := Sample.world_with Sample.valid in
  postNote E (Sample.a_note "remember the intro") w
  = (Val (inr (res_status_json 500
                 [("error"%string, js "Failed to add note");
                  ("message"%string, js "buffering timed out")])), w).
Proof.
  intros e E w.
  destruct (store_handlers_contain_failures E w None (Sample.a_note "remember the intro"))
    as [_ [_ [_ H]]].
  exact (proj2 (proj2 (H e eq_refl))).
Defined.

(** ** Creating and finding notes *)

(** X13: a created note can be found.  While the store answers, POST
    /api/notes returns the note, puts it at the end of the collection and
    logs ADD_NOTE; listing then returns the earlier notes followed by the
    new one, and a search for any non-empty query without metacharacters
    that occurs in its text, letter case aside, returns it. *)
Theorem created_note_is_found (E : env) (w : world) (doc : note) :
  store_fault E = None ->
  let w' := snd (postNote E doc w) in
  fst (postNote E doc w) = Val (inl doc)
  /\ notes w' = notes w ++ [doc]
  /\ logged_action E "ADD_NOTE" w w'
  /\ (exists m,
       getNotes E None = Some m
       /\ fst (m w') = Val (res_json (BNotes (notes w ++ [doc]))))
  /\ (forall q t,
       q <> [] -> plain_query q = true ->
       note_text doc = Some t -> contains_ci t q ->
       exists m ns,
         getNotes E (Some q) = Some m
         /\ fst (m w') = Val (res_json (BNotes ns))
         /\ In doc ns).
Proof.
  intros Hstore w'.
  assert (Hrun : postNote E doc w
                 = (Val (inl doc),
                    logged {| action := js "ADD_NOTE"; details := note_details doc;
                              createdAt := now E |}
                      {| creds := creds w; notes := notes w ++ [doc];
                         logs := logs w; calls := calls w |})).
  { unfold postNote, Note_create. unfold_handlers. rewrite Hstore. reflexivity. }
  unfold w'. rewrite Hrun. simpl.
  refine (conj eq_refl (conj eq_refl (conj _ (conj _ _)))).
  - eexists. reflexivity.
  - eexists. split; [reflexivity|]. unfold_handlers. rewrite Hstore. reflexivity.
  - intros q t Hne Hplain Ht Hin.
    destruct q as [|c q]; [congruence|].
    eexists. eexists. split; [reflexivity|].
    unfold_handlers. rewrite Hstore, (regex_test_plain E _ Hplain).
    split; [reflexivity|].
    apply filter_In. split.
    + simpl. apply in_or_app. right. left. reflexivity.
    + rewrite Ht, search_literals.
      apply includes_ci_caseless, includes_ci_iff, Hin.
Qed.

Lemma created_note_is_found_witness :
  let w := {| creds := Sample.valid; notes := [Sample.a_note "outro"];
              logs := []; calls := [] |} in
  let doc := Sample.a_note "Intro FOOtage" in
  notes (snd (postNote Sample.env_ok doc w)) = [Sample.a_note "outro"; doc]
  /\ exists m ns,
       getNotes Sample.env_ok (Some (js "foo")) = Some m
       /\ fst (m (snd (postNote Sample.env_ok doc w))) = Val (res_json (BNotes ns))
       /\ In doc ns.
Proof.
  intros w doc.
  destruct (created_note_is_found Sample.env_ok w doc eq_refl)
    as [_ [Hnotes [_ [_ Hfind]]]].
  split; [exact Hnotes|].
  apply (Hfind (js "foo") (js "Intro FOOtage")).
  - discriminate.
  - reflexivity.
  - reflexivity.
  - apply includes_ci_iff. reflexivity.
Defined.

(** X14: the search does not look at letter case.  Two non-empty queries
    without metacharacters that differ only in the case of their letters
    get the same answer. *)
Theorem search_ignores_case (E : env) (w : world) (q q' : jsstring) :
  q <> [] -> plain_query q = true -> plain_query q' = true ->
  map fold_case q = map fold_case q' ->
  exists m m',
    getNotes E (Some q) = Some m
    /\ getNotes E (Some q') = Some m'
    /\ m w = m' w.
Proof.
  intros Hne Hp Hp' Hfold.
  assert (Hne' : q' <> []).
  { intros ->. destruct q; [congruence|discriminate]. }
  destruct q as [|c q]; [congruence|]. destruct q' as [|c' q']; [congruence|].
  eexists. eexists. split; [reflexivity|]. split; [reflexivity|].
  unfold_handlers. destruct (store_fault E); [reflexivity|].
  rewrite (regex_test_plain E _ Hp), (regex_test_plain E _ Hp').
  rewrite (filter_ext _
             (fun n => match note_text n with
                       | Some t =>
                           Regex.search (regex_caseless E)
                             (map (fun c => Regex.One (Regex.Lit c)) (c' :: q')) t
                       | None => false
                       end)); [reflexivity|].
  intros n. destruct (note_text n); [|reflexivity].
  rewrite !search_literals. apply includes_caseless_fold, Hfold.
Qed.

Lemma search_ignores_case_witness :
  let w := {| creds := Sample.valid;
              notes := [Sample.a_note "Intro FOOtage"; Sample.a_note "outro"];
              logs := []; calls := [] |} in
  exists m m',
    getNotes Sample.env_ok (Some (js "foo")) = Some m
    /\ getNotes Sample.env_ok (Some (js "FoO")) = Some m'
    /\ m w = m' w.
Proof.
  intros w.
  apply (search_ignores_case Sample.env_ok w (js "foo") (js "FoO")).
  - discriminate.
  - reflexivity.
  - reflexivity.
  - reflexivity.
Defined.

(** ** What the platform is handed *)

Lemma trimStart_decomp (s : jsstring) :
  exists pre, s = pre ++ trimStart s /\ whitespace_only pre = true.
Proof.
  induction s as [|c s [pre [IH Hpre]]]; simpl.
  - exists []. auto.
  - destruct (is_ws c) eqn:Hc.
    + exists (c :: pre). split; [simpl; congruence|].
      unfold whitespace_only in *. simpl. rewrite Hc. exact Hpre.
    + exists []. auto.
Qed.

Lemma trimEnd_decomp (s : jsstring) :
  exists post, s = trimEnd s ++ post /\ whitespace_only post = true.
Proof.
  destruct (trimStart_decomp (rev s)) as [pre [H Hpre]].
  exists (rev pre). split.
  - unfold trimEnd. rewrite <- rev_app_distr, <- H, rev_involutive. reflexivity.
  - rewrite whitespace_only_rev. exact Hpre.
Qed.

(** Trimming removes whitespace at both ends and nothing else. *)
Lemma trim_decomp (s : jsstring) :
  exists pre post,
    s = pre ++ trim s ++ post
    /\ whitespace_only pre = true /\ whitespace_only post = true.
Proof.
  destruct (trimStart_decomp s) as [pre [H Hpre]].
  destruct (trimEnd_decomp (trimStart s)) as [post [H' Hpost]].
  exists pre, post. unfold trim. rewrite <- H'. auto.
Qed.

Lemma trim_head (s t : jsstring) (c : code_unit) :
  trim s = c :: t -> is_ws c = false.
Proof.
  unfold trim. intros H.
  destruct (trimEnd_decomp (trimStart s)) as [post [H' _]].
  rewrite H in H'. simpl in H'. apply (trimStart_head s _ c H').
Qed.

Lemma trim_last (s t : jsstring) (c : code_unit) :
  trim s = t ++ [c] -> is_ws c = false.
Proof.
  unfold trim, trimEnd. intros H.
  apply (f_equal (@rev code_unit)) in H.
  rewrite rev_involutive, rev_app_distr in H. simpl in H.
  apply (trimStart_head _ _ c H).
Qed.

Lemma strlen_trim (s : jsstring) : strlen (trim s) <= strlen s.
Proof.
  destruct (trim_decomp s) as [pre [post [H _]]].
  unfold strlen. rewrite H at 2. rewrite !length_app. lia.
Qed.

Lemma valid_text_trim (text : option jsstring) :
  text_required text = false ->
  text_too_long text = false ->
  well_trimmed (text_trim text)
  /\ strlen (text_trim text) <= 10000
  /\ exists s pre post,
       text = Some s /\ s = pre ++ text_trim text ++ post
       /\ whitespace_only pre = true /\ whitespace_only post = true.
Proof.
  destruct text as [s|]; [|discriminate].
  rewrite text_required_Some. unfold text_too_long, text_trim.
  intros Hs Hlen. apply Z.ltb_ge in Hlen.
  refine (conj (conj _ (conj _ _)) (conj _ _)).
  - intros H. apply trim_nil_iff in H. congruence.
  - intros c t' H. apply (trim_head s t' c H).
  - intros t' c H. apply (trim_last s t' c H).
  - pose proof (strlen_trim s). lia.
  - destruct (trim_decomp s) as [pre [post H]]. exists s, pre, post. tauto.
Qed.

(** X15: whatever the comment and the reply handler hand to the platform
    as text is the received text without the whitespace at its two ends:
    it is never empty, neither starts nor ends with whitespace and is at
    most 10,000 characters long. *)
Theorem platform_text_is_trimmed
    (E : env) (w : world) (id : jsstring) (text : option jsstring) :
  let sound t :=
    well_trimmed t
    /\ strlen t <= 10000
    /\ exists s pre post,
         text = Some s /\ s = pre ++ t ++ post
         /\ whitespace_only pre = true /\ whitespace_only post = true in
  (forall c t,
     In c (new_calls w (snd (addComment E id text w))) ->
     call_text c = Some t -> sound t)
  /\ (forall c t,
       In c (new_calls w (snd (replyComment E id text w))) ->
       call_text c = Some t -> sound t).
Proof.
  intros sound. unfold sound.
  split; all_paths; explicit_new_calls; intros c t Hin Ht; simpl in Hin;
    repeat match goal with
           | H : _ \/ _ |- _ => destruct H as [<- | H]
           | H : False |- _ => contradiction
           end;
    simpl in Ht; try discriminate; injection Ht as <-;
    apply valid_text_trim; assumption.
Qed.

Lemma platform_text_is_trimmed_witness :
  let w := Sample.world_with Sample.valid in
  let id := js "dQw4w9WgXcQ" in
  well_trimmed (js "Nice video") /\ strlen (js "Nice video") <= 10000.
Proof.
  intros w id.
  destruct (platform_text_is_trimmed Sample.env_ok w id (Some (js "  Nice video ")))
    as [Hadd _].
  destruct (Hadd (CCommentThreadsInsert id (js "Nice video")) (js "Nice video"))
    as [H1 [H2 _]].
  - right. right. left. reflexivity.
  - reflexivity.
  - exact (conj H1 H2).
Defined.

(** X16: a platform failure in the comment or the reply handler is never
    answered.  With a valid token and a valid text, when [videos.list] or
    [commentThreads.insert] (for a comment) or [comments.insert] (for a
    reply) fails, the catch block throws a ReferenceError of its own
    before logging or responding: the handler sends nothing and the log
    is as the Token Manager left it. *)
Theorem comment_failure_is_never_answered
    (E : env) (w w1 : world) (id : jsstring) (text : option jsstring)
    (error : js_error) :
  ensureValidToken E w = (Val true, w1) ->
  text_required text = false ->
  text_too_long text = false ->
  let escaped := {| code := None; message := js "text is not defined" |} in
  (videos_list E (js "snippet,status") id = Thrown error ->
   fst (addComment E id text w) = Thrown escaped
   /\ logs (snd (addComment E id text w)) = logs w1)
  /\ (forall items v,
       videos_list E (js "snippet,status") id = Val items ->
       first_item items = Some v ->
       commentThreads_insert E id (text_trim text) = Thrown error ->
       fst (addComment E id text w) = Thrown escaped
       /\ logs (snd (addComment E id text w)) = logs w1)
  /\ (comments_insert E id (text_trim text) = Thrown error ->
      fst (replyComment E id text w) = Thrown escaped
      /\ logs (snd (replyComment E id text w)) = logs w1).
Proof.
  intros He Hreq Hlong escaped.
  refine (conj _ (conj _ _)).
  - intros Hlist. unfold_handlers. rewrite Hreq, Hlong, He. simpl.
    rewrite Hlist. simpl. split_classify. split; reflexivity.
  - intros items v Hlist Hfirst Hins. unfold_handlers.
    rewrite Hreq, Hlong, He. simpl. rewrite Hlist. simpl. rewrite Hfirst. simpl.
    rewrite Hins. simpl. split_classify. split; reflexivity.
  - intros Hins. unfold_handlers. rewrite Hreq, Hlong, He. simpl.
    rewrite Hins. simpl. split_classify. split; reflexivity.
Qed.

Lemma comment_failure_is_never_answered_witness :
  let error := Sample.err 403 "commentsDisabled" in
  let E := Sample.env_failing error in
  let w := Sample.world_with Sample.valid in
  fst (replyComment E (js "Ugx1") (Some (js "Thanks")) w)
  = Thrown {| code := None; message := js "text is not defined" |}
  /\ logs (snd (replyComment E (js "Ugx1") (Some (js "Thanks")) w)) = [].
Proof.
  intros error E w.
  destruct (comment_failure_is_never_answered E w (noted CEnsureValidToken w)
              (js "Ugx1") (Some (js "Thanks")) error eq_refl eq_refl eq_refl)
    as [_ [_ Hreply]].
  exact (Hreply eq_refl).
Defined.

(** ** Merging a video update *)

(** X17: the merge of a video update is idempotent, and a body that
    repeats the current title and description changes nothing: sending
    the same update against its own result sends the same snippet. *)
Theorem merged_snippet_idempotent
    (title' description' : option jsstring) (current : snippet) :
  merged_snippet title' description'
    (merged_snippet title' description' current)
  = merged_snippet title' description' current
  /\ merged_snippet (title current) (description current) current = current.
Proof.
  unfold merged_snippet, or_else. destruct current as [t d rest]. simpl.
  split.
  - destruct (truthy_str title'), (truthy_str description'); reflexivity.
  - destruct (truthy_str t), (truthy_str d); reflexivity.
Qed.
